(** * img_to_cookie_svg.py: raster drawing to layered SVG for cookie cutters

    A shallow embedding of [src/img_to_cookie_svg.py].

    - Pixel buffers are lists of rows of 8-bit values ([Z] in [0, 255]).
    - OpenCV contours (int32 arrays of shape (N,1,2)) are lists of integer
      points.  The floats of the program all hold integers: a double with an
      integer value is modelled by that integer, extended with the two
      infinities that [bbox_from_polys] starts from; the conversion of an
      int32 coordinate is exact, and that of a Python int goes to the nearest
      double ([round_double]) or raises OverflowError.
    - Exceptions are explicit: a function that can raise returns a [result].
    - The pixel-wise OpenCV operations ([cv2.threshold], [cv2.dilate],
      [cv2.erode], [cv2.bitwise_and], [cv2.bitwise_not]) are written out as
      OpenCV documents them; the algorithms of the library (contour tracing,
      polygon approximation, polygon filling, Gaussian blur, image decoding)
      are an interface, the class [OpenCV]. *)

From Stdlib Require Import Ascii String ZArith QArith Bool Lia List.
From Stdlib Require Import DecimalString DecimalPos DecimalZ Permutation.
Import ListNotations.
Local Open Scope Z_scope.

Set Implicit Arguments.

(** ** Python values *)

Inductive exn : Type :=
| ValueError (msg : string)
| TypeError (msg : string)
| OverflowError (msg : string)
| SystemExit (code : Z).

Inductive result (A : Type) : Type :=
| Ok (a : A)
| Raise (e : exn).

Arguments Ok {A} a.
Arguments Raise {A} e.

Definition result_bind {A B} (r : result A) (k : A -> result B) : result B :=
  match r with
  | Ok a => k a
  | Raise e => Raise e
  end.

Definition result_map {A B} (f : A -> B) (r : result A) : result B :=
  result_bind r (fun a => Ok (f a)).

Declare Scope result_scope.
Delimit Scope result_scope with result.
Notation "x <- r ;; k" := (result_bind r (fun x => k))
  (at level 61, r at next level, right associativity) : result_scope.

(** A Python float that holds an integer coordinate, or one of the infinities
    [float("inf")] and [float("-inf")], or the not-a-number that a difference
    of infinities gives. *)
Inductive pyfloat : Type :=
| NegInf
| Fin (z : Z)
| PosInf
| NaN.

(** [a < b] on floats; every comparison with a NaN is false. *)
Definition float_ltb (a b : pyfloat) : bool :=
  match a, b with
  | NaN, _ | _, NaN => false
  | NegInf, NegInf => false
  | NegInf, _ => true
  | Fin _, NegInf => false
  | Fin x, Fin y => x <? y
  | Fin _, PosInf => true
  | PosInf, _ => false
  end.

(** [a - b] on floats. *)
Definition float_sub (a b : pyfloat) : pyfloat :=
  match a, b with
  | NaN, _ | _, NaN => NaN
  | Fin x, Fin y => Fin (x - y)
  | Fin _, PosInf => NegInf
  | Fin _, NegInf => PosInf
  | PosInf, PosInf => NaN
  | PosInf, _ => PosInf
  | NegInf, NegInf => NaN
  | NegInf, _ => NegInf
  end.

(** The builtins [min(a, b)] and [max(a, b)]: the first argument is kept
    unless the second is strictly smaller (larger). *)
Definition py_min (a b : pyfloat) : pyfloat := if float_ltb b a then b else a.
Definition py_max (a b : pyfloat) : pyfloat := if float_ltb a b then b else a.

(** The double nearest to an integer, ties going to the even mantissa: the
    value of [float(z)] and of [astype(float)] on an integer.  An integer of
    magnitude below 2^53 is a double itself; a larger one keeps its 53 leading
    bits, rounded. *)
Definition round_double (z : Z) : Z :=
  let a := Z.abs z in
  if a <? 2 ^ 53 then z
  else
    let e := Z.log2 a - 52 in
    let q := a / 2 ^ e in
    let r := a mod 2 ^ e in
    let half := 2 ^ (e - 1) in
    let q' := if (half <? r) || ((r =? half) && Z.odd q) then q + 1 else q in
    Z.sgn z * (q' * 2 ^ e).

(** [float(z)] of a Python int: OverflowError when the nearest double would
    not be finite. *)
Definition float_of_int (z : Z) : result pyfloat :=
  let r := round_double z in
  if 2 ^ 1024 <=? Z.abs r
  then Raise (OverflowError "int too large to convert to float")
  else Ok (Fin r).

(** The decimal numeral of an integer, as [str] and the format codes write
    it. *)
Definition dec (z : Z) : string := NilZero.string_of_int (Z.to_int z).

(** ** Points, contours, images *)

Definition point : Type := (Z * Z)%type.
Definition contour : Type := list point.
Definition image : Type := list (list Z).

(** ** numpy *)

Module np.

Definition zero_size_msg (op : string) : string :=
  ("zero-size array to reduction operation " ++ op
     ++ " which has no identity")%string.

(** [a.min()] and [a.max()] of a one-dimensional array of floats (none of
    them a NaN): a zero-size array raises ValueError. *)
Definition min (xs : list pyfloat) : result pyfloat :=
  match xs with
  | [] => Raise (ValueError (zero_size_msg "minimum"))
  | x :: r => Ok (fold_left py_min r x)
  end.

Definition max (xs : list pyfloat) : result pyfloat :=
  match xs with
  | [] => Raise (ValueError (zero_size_msg "maximum"))
  | x :: r => Ok (fold_left py_max r x)
  end.

(** [np.zeros((h, w), dtype=np.uint8)] and [np.ones((h, w), np.uint8)]. *)
Definition zeros (h w : nat) : image := repeat (repeat 0 w) h.
Definition ones (h w : nat) : image := repeat (repeat 1 w) h.

End np.

(** ** bbox_from_polys *)

(** What an element of [polys] can be:
    - [None], which the loop skips;
    - an OpenCV contour, an int32 array of shape (N,1,2), or such an array
      reshaped to (N,2): its coordinates are doubles as they are;
    - a Python list of (x, y) pairs of Python ints, which numpy turns into an
      array of shape (N,2) when it has a pair, and of shape (0,) when empty;
    - a generator of (x, y) pairs of Python ints, which numpy wraps in a
      zero-dimensional object array;
    - a tuple of plain numbers, such as one point (3, 4) passed where a
      polygon is expected: an array of shape (n,) whose items do not unpack
      into x and y. *)
Inductive poly : Type :=
| PyNone
| Contour (pts : list point)
| Points (pts : list point)
| PairList (pts : list point)
| PairIter (pts : list point)
| FlatTuple (zs : list Z).

Definition poly_points (p : poly) : list point :=
  match p with
  | PyNone | FlatTuple _ => []
  | Contour pts | Points pts | PairList pts | PairIter pts => pts
  end.

(** [np.asarray(poly).shape]. *)
Definition asarray_shape (p : poly) : list nat :=
  match p with
  | PyNone => []
  | Contour pts => [length pts; 1%nat; 2%nat]
  | Points pts => [length pts; 2%nat]
  | PairList [] => [0%nat]
  | PairList pts => [length pts; 2%nat]
  | PairIter _ => []
  | FlatTuple zs => [length zs]
  end.

Definition ndim (shape : list nat) : nat := length shape.
Definition last_dim (shape : list nat) : nat := last shape 0%nat.

(** [type(poly).__name__] with its module, as [str(type(poly))] shows it. *)
Definition type_name (p : poly) : string :=
  match p with
  | PyNone => "NoneType"
  | Contour _ | Points _ => "numpy.ndarray"
  | PairList _ => "list"
  | PairIter _ => "generator"
  | FlatTuple _ => "tuple"
  end.

(** [str(shape)] of a tuple of ints. *)
Definition shape_str (shape : list nat) : string :=
  match shape with
  | [] => "()"
  | [n] => ("(" ++ dec (Z.of_nat n) ++ ",)")%string
  | _ =>
      ("(" ++ String.concat ", " (map (fun n => dec (Z.of_nat n)) shape)
         ++ ")")%string
  end.

(** The exception of the [except] clause,
    [TypeError(f"Unsupported contour/polygon format: {type(poly)}
    shape={getattr(arr, 'shape', None)}")]. *)
Definition unsupported (p : poly) : exn :=
  TypeError ("Unsupported contour/polygon format: <class '" ++ type_name p
               ++ "'> shape=" ++ shape_str (asarray_shape p))%string.

(** What [for pt in poly] meets: pairs, or plain numbers. *)
Inductive item : Type :=
| ItemPair (pt : point)
| ItemNumber (z : Z).

Definition iter_items (p : poly) : list item :=
  match p with
  | FlatTuple zs => map ItemNumber zs
  | _ => map ItemPair (poly_points p)
  end.

Record bbox_state : Type := mkBBox {
  min_x : pyfloat;
  min_y : pyfloat;
  max_x : pyfloat;
  max_y : pyfloat;
  n_points : nat
}.

Definition bbox_init : bbox_state :=
  mkBBox PosInf PosInf NegInf NegInf 0.

Local Open Scope result_scope.

Fixpoint map_result {A B} (f : A -> result B) (l : list A) : result (list B) :=
  match l with
  | [] => Ok []
  | a :: r => b <- f a ;; bs <- map_result f r ;; Ok (b :: bs)
  end.

(** The four updates of the fallback loop for one pair (x, y). *)
Definition bbox_add_point (st : bbox_state) (pt : point) : result bbox_state :=
  let (x, y) := pt in
  fx <- float_of_int x ;;
  fy <- float_of_int y ;;
  Ok (mkBBox (py_min (min_x st) fx) (py_min (min_y st) fy)
             (py_max (max_x st) fx) (py_max (max_y st) fy)
             (S (n_points st))).

(** The loop [for pt in poly: x, y = pt; ...]: a plain number does not
    unpack. *)
Fixpoint bbox_iterate (st : bbox_state) (items : list item)
  : result bbox_state :=
  match items with
  | [] => Ok st
  | ItemNumber _ :: _ =>
      Raise (TypeError "cannot unpack non-iterable int object")
  | ItemPair pt :: rest => st' <- bbox_add_point st pt ;; bbox_iterate st' rest
  end.

(** The fallback, [try: ... except Exception as e: raise TypeError(...) from
    e]: whatever the loop raises becomes the TypeError of the function. *)
Definition bbox_fallback (st : bbox_state) (p : poly) : result bbox_state :=
  match bbox_iterate st (iter_items p) with
  | Ok st' => Ok st'
  | Raise _ => Raise (unsupported p)
  end.

(** [arr[:, k].astype(float)]: exact on the int32 arrays of OpenCV; on the
    array that numpy makes of a list of Python ints each value goes to the
    nearest double, and one beyond the doubles raises OverflowError. *)
Definition astype_float (p : poly) (zs : list Z) : result (list pyfloat) :=
  match p with
  | PairList _ => map_result float_of_int zs
  | _ => Ok (map Fin zs)
  end.

(** The fast path for numpy arrays, after the reshape to (N,2). *)
Definition bbox_add_array (st : bbox_state) (p : poly) : result bbox_state :=
  let arr := poly_points p in
  xs <- astype_float p (map fst arr) ;;
  ys <- astype_float p (map snd arr) ;;
  xmin <- np.min xs ;;
  ymin <- np.min ys ;;
  xmax <- np.max xs ;;
  ymax <- np.max ys ;;
  Ok (mkBBox (py_min (min_x st) xmin) (py_min (min_y st) ymin)
             (py_max (max_x st) xmax) (py_max (max_y st) ymax)
             (n_points st + length arr)).

(** The body of [for poly in polys]: an array of shape (N,1,2) or (N,2) takes
    the fast path, anything else is iterated as (x, y) pairs inside the
    try. *)
Definition bbox_step (st : bbox_state) (p : poly) : result bbox_state :=
  match p with
  | PyNone => Ok st
  | _ =>
      let shape := asarray_shape p in
      if ((ndim shape =? 3)%nat && (last_dim shape =? 2)%nat)
         || ((ndim shape =? 2)%nat && (last_dim shape =? 2)%nat)
      then bbox_add_array st p
      else bbox_fallback st p
  end.

Fixpoint bbox_loop (st : bbox_state) (polys : list poly) : result bbox_state :=
  match polys with
  | [] => Ok st
  | p :: rest => st' <- bbox_step st p ;; bbox_loop st' rest
  end.

Definition box : Type := (pyfloat * pyfloat * pyfloat * pyfloat)%type.

Definition bbox_from_polys (polys : list poly) : result box :=
  st <- bbox_loop bbox_init polys ;;
  if (n_points st =? 0)%nat
  then Raise (ValueError "bbox_from_polys: empty polygon/contour list")
  else Ok (min_x st, min_y st, max_x st, max_y st).

Local Close Scope result_scope.

(** Vocabulary for the statements about [bbox_from_polys]. *)

Definition all_points (polys : list poly) : list point :=
  concat (map poly_points polys).

Definition total_points (polys : list poly) : nat := length (all_points polys).

(** An ndarray with no rows: the fast path reduces over it. *)
Definition empty_ndarray (p : poly) : bool :=
  match p with
  | Contour [] | Points [] => true
  | _ => false
  end.

(** An element whose items are pairs (or that has no item at all). *)
Definition pairs_only (p : poly) : bool :=
  match p with
  | FlatTuple (_ :: _) => false
  | _ => true
  end.

(** The integers up to 2^53 in magnitude, each of which is a double. *)
Definition in_float_range (z : Z) : bool := Z.abs z <=? 2 ^ 53.

(** Points whose coordinates are all in that range. *)
Definition exact_points (pts : list point) : bool :=
  forallb (fun pt => in_float_range (fst pt) && in_float_range (snd pt)) pts.

(** An integer whose nearest double is not finite. *)
Definition overflows (z : Z) : bool := 2 ^ 1024 <=? Z.abs (round_double z).

Definition any_overflow (pts : list point) : bool :=
  existsb (fun pt => overflows (fst pt) || overflows (snd pt)) pts.

Definition round_point (pt : point) : point :=
  (round_double (fst pt), round_double (snd pt)).

(** The points of an element as the function sees them, as floats: those of
    an OpenCV array as they are, those of a list or generator of Python ints
    rounded to the nearest doubles. *)
Definition float_points (p : poly) : list point :=
  match p with
  | PairList pts | PairIter pts => map round_point pts
  | _ => poly_points p
  end.

Definition all_float_points (polys : list poly) : list point :=
  concat (map float_points polys).

(** The box around points: the least and greatest of their coordinates; with
    no point, the ValueError of the function. *)
Definition box_around (pts : list point) : result box :=
  match pts with
  | [] => Raise (ValueError "bbox_from_polys: empty polygon/contour list")
  | (x, y) :: rest =>
      Ok (Fin (fold_left Z.min (map fst rest) x),
          Fin (fold_left Z.min (map snd rest) y),
          Fin (fold_left Z.max (map fst rest) x),
          Fin (fold_left Z.max (map snd rest) y))
  end.

(** The exception that an element makes the function raise, if any. *)
Definition element_error (p : poly) : option exn :=
  match p with
  | Contour [] | Points [] => Some (ValueError (np.zero_size_msg "minimum"))
  | PairList pts =>
      if any_overflow pts
      then Some (OverflowError "int too large to convert to float")
      else None
  | PairIter pts => if any_overflow pts then Some (unsupported p) else None
  | FlatTuple (_ :: _) => Some (unsupported p)
  | _ => None
  end.

(** The exception of the first element that raises. *)
Fixpoint first_error (polys : list poly) : option exn :=
  match polys with
  | [] => None
  | p :: rest =>
      match element_error p with
      | Some e => Some e
      | None => first_error rest
      end
  end.

(** The state of the loop after the points [pts], taken as floats, have been
    added to it. *)
Definition bbox_extend (st : bbox_state) (pts : list point) : bbox_state :=
  mkBBox (fold_left (fun a z => py_min a (Fin z)) (map fst pts) (min_x st))
         (fold_left (fun a z => py_min a (Fin z)) (map snd pts) (min_y st))
         (fold_left (fun a z => py_max a (Fin z)) (map fst pts) (max_x st))
         (fold_left (fun a z => py_max a (Fin z)) (map snd pts) (max_y st))
         (n_points st + length pts).

Definition translate_point (dx dy : Z) (pt : point) : point :=
  (fst pt + dx, snd pt + dy).

Definition translate_poly (dx dy : Z) (p : poly) : poly :=
  match p with
  | PyNone => PyNone
  | Contour pts => Contour (map (translate_point dx dy) pts)
  | Points pts => Points (map (translate_point dx dy) pts)
  | PairList pts => PairList (map (translate_point dx dy) pts)
  | PairIter pts => PairIter (map (translate_point dx dy) pts)
  | FlatTuple zs => FlatTuple zs
  end.

Definition shift_float (d : Z) (f : pyfloat) : pyfloat :=
  match f with
  | Fin z => Fin (z + d)
  | _ => f
  end.

Definition shift_box (dx dy : Z) (b : box) : box :=
  let '(x0, y0, x1, y1) := b in
  (shift_float dx x0, shift_float dy y0, shift_float dx x1, shift_float dy y1).

(** ** OpenCV: the pixel-wise operations *)

Fixpoint mapi_from {A B} (f : Z -> A -> B) (i : Z) (l : list A) : list B :=
  match l with
  | [] => []
  | a :: r => f i a :: mapi_from f (i + 1) r
  end.

Definition mapi {A B} (f : Z -> A -> B) (l : list A) : list B :=
  mapi_from f 0 l.

Fixpoint zip_with {A B C} (f : A -> B -> C) (l : list A) (m : list B)
  : list C :=
  match l, m with
  | a :: l', b :: m' => f a b :: zip_with f l' m'
  | _, _ => []
  end.

(** [img[y, x]], or nothing outside the image. *)
Definition pixel_at (img : image) (y x : Z) : option Z :=
  if (y <? 0) || (x <? 0) then None
  else match nth_error img (Z.to_nat y) with
       | Some row => nth_error row (Z.to_nat x)
       | None => None
       end.

Inductive thresh_type : Type :=
| THRESH_BINARY
| THRESH_BINARY_INV.

Inductive retr_mode : Type :=
| RETR_EXTERNAL
| RETR_TREE.

Module cv2.

(** [cv2.threshold(src, thresh, maxval, type)], the destination image:
    - THRESH_BINARY:      dst = maxval if src > thresh else 0
    - THRESH_BINARY_INV:  dst = 0 if src > thresh else maxval *)
Definition threshold_pixel (thresh maxval : Z) (ty : thresh_type) (v : Z)
  : Z :=
  match ty with
  | THRESH_BINARY => if v >? thresh then maxval else 0
  | THRESH_BINARY_INV => if v >? thresh then 0 else maxval
  end.

Definition threshold (src : image) (thresh maxval : Z) (ty : thresh_type)
  : image :=
  map (map (threshold_pixel thresh maxval ty)) src.

(** [cv2.bitwise_not] on 8-bit pixels. *)
Definition bitwise_not (src : image) : image :=
  map (map (fun v => Z.lxor v 255)) src.

(** [cv2.bitwise_and] of two images of the same size. *)
Definition bitwise_and (a b : image) : image :=
  zip_with (zip_with Z.land) a b.

(** The cells of a structuring element that are set, as offsets from its
    anchor, the centre of the kernel. *)
Definition kernel_offsets (kernel : image) : list (Z * Z) :=
  let ay := Z.of_nat (length kernel) / 2 in
  let ax := Z.of_nat (length (hd [] kernel)) / 2 in
  concat (mapi (fun i row =>
    concat (mapi (fun j k => if k =? 0 then [] else [(i - ay, j - ax)]) row))
    kernel).

(** The source pixels under the structuring element placed at (y, x);
    pixels outside the image do not take part (OpenCV's default border for
    morphology). *)
Definition window (img : image) (offs : list (Z * Z)) (y x : Z) : list Z :=
  flat_map (fun o => match pixel_at img (y + fst o) (x + snd o) with
                     | Some v => [v]
                     | None => []
                     end) offs.

Definition dilate_once (kernel : image) (img : image) : image :=
  let offs := kernel_offsets kernel in
  mapi (fun y row =>
          mapi (fun x _ => fold_right Z.max 0 (window img offs y x)) row)
       img.

Definition erode_once (kernel : image) (img : image) : image :=
  let offs := kernel_offsets kernel in
  mapi (fun y row =>
          mapi (fun x _ => fold_right Z.min 255 (window img offs y x)) row)
       img.

(** OpenCV's morphology copies the source when [iterations == 0] or the
    kernel is a single cell. *)
Definition morph_is_copy (kernel : image) (iterations : nat) : bool :=
  (iterations =? 0)%nat
  || (length kernel * length (hd [] kernel) =? 1)%nat.

Definition dilate (src kernel : image) (iterations : nat) : image :=
  if morph_is_copy kernel iterations then src
  else Nat.iter iterations (dilate_once kernel) src.

Definition erode (src kernel : image) (iterations : nat) : image :=
  if morph_is_copy kernel iterations then src
  else Nat.iter iterations (erode_once kernel) src.

End cv2.

(** ** OpenCV: the algorithms, as an interface *)

Class OpenCV : Type := {
  (** [cv2.imread(path, cv2.IMREAD_GRAYSCALE)]: [None] when the file cannot
      be read. *)
  imread : string -> option image;
  (** [cv2.GaussianBlur(img, (k, k), 0)]. *)
  GaussianBlur : image -> Z -> image;
  (** [cv2.findContours(binary, mode, cv2.CHAIN_APPROX_SIMPLE)], the contours
      in traced order. *)
  findContours : image -> retr_mode -> list contour;
  (** [cv2.contourArea(contour)]. *)
  contourArea : contour -> Q;
  (** [cv2.arcLength(contour, True)]. *)
  arcLength : contour -> Q;
  (** [cv2.approxPolyDP(contour, epsilon, True)]. *)
  approxPolyDP : contour -> Q -> contour;
  (** The pixels (y, x) that [cv2.drawContours(img, contours, contourIdx=-1,
      color, thickness=cv2.FILLED)] paints. *)
  filled : list contour -> Z -> Z -> bool
}.

Definition Qltb (a b : Q) : bool := negb (Qle_bool b a).

(** [max(items, key=key)] on a non-empty sequence: an item replaces the
    current maximum only when its key is strictly greater. *)
Fixpoint py_max_by {A} (key : A -> Q) (best : A) (rest : list A) : A :=
  match rest with
  | [] => best
  | c :: rest' =>
      if Qltb (key best) (key c) then py_max_by key c rest'
      else py_max_by key best rest'
  end.

Section Geometry.
Context {cv : OpenCV}.

Definition drawContours (img : image) (contours : list contour) (color : Z)
  : image :=
  mapi (fun y row =>
          mapi (fun x v => if filled contours y x then color else v) row)
       img.

(** Return binary image: 255 = foreground, 0 = background. *)
Definition binarize (img_gray : image) (thresh_val blur_k : Z)
           (invert : bool) : image :=
  let img_gray :=
    if negb (blur_k =? 0) && (blur_k >? 0) && (blur_k mod 2 =? 1)
    then GaussianBlur img_gray blur_k
    else img_gray in
  let binary := cv2.threshold img_gray thresh_val 255 THRESH_BINARY_INV in
  if invert then cv2.bitwise_not binary else binary.

(** The wrapper returns (contours, hierarchy); no caller reads the
    hierarchy. *)
Definition find_contours (binary : image) (mode : retr_mode)
  : list contour :=
  findContours binary mode.

(** Simplify contour using approxPolyDP with epsilon = factor * perimeter. *)
Definition simplify_contour (c : contour) (factor : Q) : contour :=
  let peri := arcLength c in
  let epsilon := (factor * peri)%Q in
  approxPolyDP c epsilon.

End Geometry.

(** ** Text formatting *)

Local Open Scope string_scope.

(** [f"{float(x):.2f}"] for an integer coordinate. *)
Definition fmt_2f (z : Z) : string := dec z ++ ".00".

(** [f"{v:.6f}"]. *)
Definition fmt_6f (v : pyfloat) : string :=
  match v with
  | Fin z => dec z ++ ".000000"
  | PosInf => "inf"
  | NegInf => "-inf"
  | NaN => "nan"
  end.

Fixpoint rfind_from (c : Ascii.ascii) (s : string) (i acc : Z) : Z :=
  match s with
  | EmptyString => acc
  | String a r => rfind_from c r (i + 1) (if Ascii.eqb a c then i else acc)
  end.

(** [s.rfind(c)]: the last index of [c], or -1. *)
Definition rfind (c : Ascii.ascii) (s : string) : Z := rfind_from c s 0 (-1).

Fixpoint string_existsb (f : Ascii.ascii -> bool) (s : string) : bool :=
  match s with
  | EmptyString => false
  | String a r => f a || string_existsb f r
  end.

(** [os.path.splitext(p)[0]]: the path without its extension; the leading
    dots of the file name do not start an extension. *)
Definition splitext_base (p : string) : string :=
  let sepIndex := rfind "/"%char p in
  let dotIndex := rfind "."%char p in
  if dotIndex >? sepIndex then
    let filenameIndex := Z.to_nat (sepIndex + 1) in
    if string_existsb (fun a => negb (Ascii.eqb a "."%char))
         (substring filenameIndex (Z.to_nat dotIndex - filenameIndex) p)
    then substring 0 (Z.to_nat dotIndex) p
    else p
  else p.

(** ** SVG path data *)

(** Convert a contour (Nx1x2 array) into an SVG path string. *)
Definition contour_to_path_d (c : contour) : string :=
  match c with
  | [] => ""
  | (x0, y0) :: rest =>
      let move := "M " ++ fmt_2f x0 ++ "," ++ fmt_2f y0 in
      let line pt := "L " ++ fmt_2f (fst pt) ++ "," ++ fmt_2f (snd pt) in
      String.concat " " (move :: app (map line rest) ["Z"])
  end.

(** The loop of [contours_to_compound_path_d]: [parts] grows by one path
    string per contour whose string is not empty. *)
Fixpoint compound_parts (parts : list string) (contours : list contour)
  : list string :=
  match contours with
  | [] => parts
  | cnt :: rest =>
      let d := contour_to_path_d cnt in
      if String.eqb d "" then compound_parts parts rest
      else compound_parts (parts ++ [d])%list rest
  end.

(** Concatenate multiple contours into one SVG path 'd' with multiple
    subpaths. *)
Definition contours_to_compound_path_d (contours : list contour) : string :=
  String.concat " " (compound_parts [] contours).

(** ** Documents, files and what a run does *)

Record path : Type := mkPath {
  path_d : string;
  path_fill : string;
  path_stroke : string;
  path_stroke_width : option Z;
  path_fill_rule : option string
}.

Record group : Type := mkGroup {
  group_id : string;
  group_attribs : list (string * string);
  group_paths : list path
}.

Inductive element : Type :=
| EPath (p : path)
| EGroup (g : group).

Record drawing : Type := mkDrawing {
  dwg_size : string * string;
  dwg_viewBox : string;
  dwg_attribs : list (string * string);
  dwg_elements : list element
}.

Inductive file : Type :=
| SvgFile (dwg : drawing)
| TextFile (lines : list string)
| PngFile (img : image)
| PngColorFile (img : list (list (Z * Z * Z))).

Inductive event : Type :=
| Stdout (line : string)
| Stderr (line : string)
| WriteFile (name : string) (content : file).

(** A run: what it printed and wrote, in order, and how it ended. *)
Definition prog (A : Type) : Type := (list event * result A)%type.

Definition ret {A} (a : A) : prog A := ([], Ok a).

Definition bind {A B} (m : prog A) (k : A -> prog B) : prog B :=
  match m with
  | (log, Ok a) => let (log', r) := k a in ((log ++ log')%list, r)
  | (log, Raise e) => (log, Raise e)
  end.

Definition emit (e : event) : prog unit := ([e], Ok tt).
Definition raise {A} (e : exn) : prog A := ([], Raise e).
Definition lift {A} (r : result A) : prog A := ([], r).

Declare Scope prog_scope.
Delimit Scope prog_scope with prog.
Notation "x <- m ;; k" := (bind m (fun x => k))
  (at level 61, m at next level, right associativity) : prog_scope.
Notation "m ;; k" := (bind m (fun _ => k))
  (at level 61, right associativity) : prog_scope.

Definition events {A} (m : prog A) : list event := fst m.
Definition outcome {A} (m : prog A) : result A := snd m.

(** The paths of a layer of the combined document and of the outline
    document: one path per contour with a non-empty path string. *)
Fixpoint contour_paths (mk : string -> path) (contours : list contour)
  : list path :=
  match contours with
  | [] => []
  | cnt :: rest =>
      let d := contour_to_path_d cnt in
      if String.eqb d "" then contour_paths mk rest
      else mk d :: contour_paths mk rest
  end.

Definition stroked (d : string) : path := mkPath d "none" "black" (Some 1) None.
Definition filled_black (d : string) : path := mkPath d "black" "none" None None.

Definition layer (name : string) (contours : list contour) : element :=
  EGroup (mkGroup name
            [("inkscape:groupmode", "layer"); ("inkscape:label", name)]
            (contour_paths stroked contours)).

Definition new_drawing (width height : Z) (attribs : list (string * string))
           (elements : list element) : drawing :=
  mkDrawing (dec width ++ "px", dec height ++ "px")
            ("0 0 " ++ dec width ++ " " ++ dec height)
            attribs elements.

Local Open Scope prog_scope.

(** Writes OpenSCAD include file with outline bounds in SVG/viewBox units. *)
Definition write_meta_scad (meta_path : string) (w_u h_u : pyfloat)
  : prog unit :=
  emit (WriteFile meta_path
          (TextFile ["ART_W_U = " ++ fmt_6f w_u ++ ";";
                     "ART_H_U = " ++ fmt_6f h_u ++ ";"])).

(** Generate layered SVG with an outline layer and a detail layer. *)
Definition create_svg (width height : Z)
           (outline_contours detail_contours : list contour)
           (output_path : string) : prog unit :=
  emit (WriteFile output_path
          (SvgFile (new_drawing width height
             [("xmlns:inkscape", "http://www.inkscape.org/namespaces/inkscape")]
             [layer "outline" outline_contours;
              layer "detail" detail_contours]))) ;;
  emit (Stdout ("Saved layered SVG to: " ++ output_path)).

Definition write_svg_single_group (width height : Z)
           (contours : list contour) (output_path : string) : prog unit :=
  emit (WriteFile output_path
          (SvgFile (new_drawing width height []
             (map EPath (contour_paths filled_black contours))))).

(** The document that [write_svg_detail_evenodd] saves. *)
Definition detail_evenodd_drawing (width height : Z)
           (contours : list contour) : drawing :=
  let d := contours_to_compound_path_d contours in
  new_drawing width height []
    (if String.eqb d "" then []
     else [EPath (mkPath d "black" "none" None (Some "evenodd"))]).

Definition write_svg_detail_evenodd (width height : Z)
           (contours : list contour) (output_path : string) : prog unit :=
  emit (WriteFile output_path
          (SvgFile (detail_evenodd_drawing width height contours))).

Local Close Scope prog_scope.
Local Close Scope string_scope.

(** ** The command line *)

Record Args : Type := mkArgs {
  input : string;
  output : string;
  threshold : Z;        (* --threshold, default 180 *)
  invert : bool;        (* --invert *)
  blur : Z;             (* --blur, default 3 *)
  outline_offset : Z;   (* --outline-offset, default 5 *)
  simplify : Q;         (* --simplify, default 0.01 *)
  min_area : Q;         (* --min-area, default 50 *)
  debug : bool          (* --debug *)
}.

Definition default_args (input output : string) : Args :=
  mkArgs input output 180 false 3 5 (1 # 100) (50 # 1) false.

Definition with_simplify (a : Args) (s : Q) : Args :=
  mkArgs (input a) (output a) (threshold a) (invert a) (blur a)
         (outline_offset a) s (min_area a) (debug a).

Definition with_blur (a : Args) (b : Z) : Args :=
  mkArgs (input a) (output a) (threshold a) (invert a) b
         (outline_offset a) (simplify a) (min_area a) (debug a).

Definition with_min_area (a : Args) (m : Q) : Args :=
  mkArgs (input a) (output a) (threshold a) (invert a) (blur a)
         (outline_offset a) (simplify a) m (debug a).

(** ** main *)

Section Main.
Context {cv : OpenCV}.

Local Open Scope string_scope.
Local Open Scope prog_scope.

Definition load_grayscale (path : string) : prog image :=
  match imread path with
  | None =>
      emit (Stderr ("ERROR: Unable to read image '" ++ path ++ "'")) ;;
      raise (SystemExit 1)
  | Some img => ret img
  end.

(** [h, w = img_gray.shape[:2]]. *)
Definition height (img : image) : nat := length img.
Definition width (img : image) : nat := length (hd [] img).

(** Step 1, the mask of the black region: the inverted threshold, then the
    dilation by the outline offset. *)
Definition thresholded_mask (args : Args) (img_gray : image) : image :=
  cv2.threshold img_gray (threshold args) 255 THRESH_BINARY_INV.

Definition shape_mask (args : Args) (img_gray : image) : image :=
  let shape_mask := thresholded_mask args img_gray in
  if outline_offset args >? 0 then
    let kernel_size := Z.to_nat (Z.max 1 (outline_offset args * 2 + 1)) in
    let kernel := np.ones kernel_size kernel_size in
    cv2.dilate shape_mask kernel 1
  else shape_mask.

Definition outline_contours (args : Args) (img_gray : image)
  : list contour :=
  find_contours (shape_mask args img_gray) RETR_EXTERNAL.

(** The branch [if outline_contours:], which gives
    [outline_contours_filtered] and [silhouette_mask]. *)
Definition select_outline (args : Args) (h w : nat)
           (outline_contours : list contour) : list contour * image :=
  let silhouette_mask := np.zeros h w in
  match outline_contours with
  | c :: rest =>
      let largest := py_max_by contourArea c rest in
      let cnt_simplified := simplify_contour largest (simplify args) in
      ([cnt_simplified],
       drawContours silhouette_mask [cnt_simplified] 255)
  | [] => ([], silhouette_mask)
  end.

Definition outline_contours_filtered (args : Args) (img_gray : image)
  : list contour :=
  fst (select_outline args (height img_gray) (width img_gray)
                      (outline_contours args img_gray)).

Definition silhouette_mask (args : Args) (img_gray : image) : image :=
  snd (select_outline args (height img_gray) (width img_gray)
                      (outline_contours args img_gray)).

(** Step 2, the white inside the silhouette. *)
Definition white_mask (args : Args) (img_gray : image) : image :=
  cv2.threshold img_gray (threshold args) 255 THRESH_BINARY.

Definition white_inside (args : Args) (img_gray : image) : image :=
  cv2.bitwise_and (white_mask args img_gray) (silhouette_mask args img_gray).

Definition white_inside_eroded (args : Args) (img_gray : image) : image :=
  let detail_kernel := np.ones 3 3 in
  cv2.erode (white_inside args img_gray) detail_kernel 0.

Definition detail_contours (args : Args) (img_gray : image)
  : list contour :=
  find_contours (white_inside_eroded args img_gray) RETR_TREE.

(** The loop [for cnt in detail_contours]. *)
Fixpoint filter_detail (contours : list contour) : list contour :=
  match contours with
  | [] => []
  | cnt :: rest =>
      let area := contourArea cnt in
      if Qltb area (2 # 1) then filter_detail rest
      else
        let cnt_simplified := simplify_contour cnt (2 # 1000) in
        cnt_simplified :: filter_detail rest
  end.

Definition detail_contours_filtered (args : Args) (img_gray : image)
  : list contour :=
  filter_detail (detail_contours args img_gray).

(** Step 3, the debug overlay: red silhouette, green detail on top. *)
Definition debug_overlay (silhouette eroded : image)
  : list (list (Z * Z * Z)) :=
  zip_with (zip_with (fun s e =>
                        if (e =? 255)%Z then (0, 255, 0)
                        else if (s =? 255)%Z then (0, 0, 255)
                        else (0, 0, 0)))
           silhouette eroded.

Definition write_debug (args : Args) (img_gray : image) : prog unit :=
  emit (WriteFile "debug_shape_mask.png"
          (PngFile (shape_mask args img_gray))) ;;
  emit (WriteFile "debug_silhouette_mask.png"
          (PngFile (silhouette_mask args img_gray))) ;;
  emit (WriteFile "debug_white_inside.png"
          (PngFile (white_inside args img_gray))) ;;
  emit (WriteFile "debug_white_inside_eroded.png"
          (PngFile (white_inside_eroded args img_gray))) ;;
  emit (WriteFile "debug_overlay.png"
          (PngColorFile (debug_overlay (silhouette_mask args img_gray)
                                       (white_inside_eroded args img_gray)))) ;;
  emit (Stdout "Wrote debug_* PNGs in current directory.").

Definition is_empty {A} (l : list A) : bool :=
  match l with
  | [] => true
  | _ => false
  end.

(** The box of the outline contours, which are OpenCV contours. *)
Definition outline_bbox (contours : list contour) : result box :=
  bbox_from_polys (map Contour contours).

Definition main (args : Args) : prog unit :=
  img_gray <- load_grayscale (input args) ;;
  let h := Z.of_nat (height img_gray) in
  let w := Z.of_nat (width img_gray) in
  (if is_empty (outline_contours args img_gray)
   then emit (Stderr "WARNING: No outline contours found (no black region?)")
   else ret tt) ;;
  (if is_empty (detail_contours_filtered args img_gray)
   then emit (Stderr
                "WARNING: No detail contours found (white inside outline).")
   else ret tt) ;;
  (if debug args then write_debug args img_gray else ret tt) ;;
  create_svg w h (outline_contours_filtered args img_gray)
             (detail_contours_filtered args img_gray) (output args) ;;
  let base := splitext_base (output args) in
  write_svg_single_group w h (outline_contours_filtered args img_gray)
                         (base ++ "_outline.svg") ;;
  write_svg_detail_evenodd w h (detail_contours_filtered args img_gray)
                           (base ++ "_detail.svg") ;;
  emit (Stdout ("Wrote: " ++ base ++ "_outline.svg and "
                  ++ base ++ "_detail.svg")) ;;
  b <- lift (outline_bbox (outline_contours_filtered args img_gray)) ;;
  let '(min_x, min_y, max_x, max_y) := b in
  let art_w_u := float_sub max_x min_x in
  let art_h_u := float_sub max_y min_y in
  let meta_path := base ++ "_meta.scad" in
  write_meta_scad meta_path art_w_u art_h_u ;;
  emit (Stdout ("Wrote:  " ++ base ++ "_meta.scad")).

End Main.

(** ** Vocabulary of the statements *)

(** A mask holds only the two sentinel values. *)
Definition sentinel (v : Z) : Prop := v = 0 \/ v = 255.

Definition binary_mask (m : image) : Prop :=
  forall row, In row m -> forall v, In v row -> sentinel v.

(** A mask with no foreground pixel. *)
Definition no_foreground (m : image) : Prop :=
  forall row, In row m -> forall v, In v row -> v = 0.

(** Every pixel of the image is lighter than the threshold. *)
Definition all_lighter (t : Z) (img : image) : Prop :=
  forall row, In row img -> forall v, In v row -> t < v.

Definition nonempty_contour (c : contour) : bool :=
  match c with
  | [] => false
  | _ => true
  end.

(** The areas at least 2 pass the filter of the detail loop. *)
Definition detail_kept {cv : OpenCV} (c : contour) : bool :=
  negb (Qltb (contourArea c) (2 # 1)).

(** The run went through to its end. *)
Definition completes (m : prog unit) : Prop := outcome m = Ok tt.

Definition with_debug (a : Args) (d : bool) : Args :=
  mkArgs (input a) (output a) (threshold a) (invert a) (blur a)
         (outline_offset a) (simplify a) (min_area a) d.

(** The command that [contour_to_path_d] writes for a point after the
    first. *)
Definition path_line (pt : point) : string :=
  ("L " ++ fmt_2f (fst pt) ++ "," ++ fmt_2f (snd pt))%string.

Definition with_threshold (a : Args) (t : Z) : Args :=
  mkArgs (input a) (output a) t (invert a) (blur a)
         (outline_offset a) (simplify a) (min_area a) (debug a).

(** An array of [h] rows of [w] pixels. *)
Definition has_shape (m : image) (h w : nat) : Prop :=
  length m = h /\ forall row, In row m -> length row = w.

(** The warnings of a run, in the order [main] prints them. *)
Definition warnings {cv : OpenCV} (args : Args) (img_gray : image)
  : list event :=
  (if is_empty (outline_contours args img_gray)
   then [Stderr "WARNING: No outline contours found (no black region?)"]
   else [])
  ++ (if is_empty (detail_contours_filtered args img_gray)
      then [Stderr "WARNING: No detail contours found (white inside outline)."]
      else []).

(** What a run on a drawing without foreground prints and writes, and how it
    ends: both warnings, the debug images when asked for, the three documents
    without a path, and the ValueError of [bbox_from_polys]. *)
Definition no_foreground_run {cv : OpenCV} (args : Args) (img_gray : image)
  : prog unit :=
  let w := Z.of_nat (width img_gray) in
  let h := Z.of_nat (height img_gray) in
  let base := splitext_base (output args) in
  ((Stderr "WARNING: No outline contours found (no black region?)"
    :: Stderr "WARNING: No detail contours found (white inside outline)."
    :: (if debug args then events (write_debug args img_gray) else [])
   ++ [WriteFile (output args)
         (SvgFile (new_drawing w h
            [("xmlns:inkscape"%string,
              "http://www.inkscape.org/namespaces/inkscape"%string)]
            [layer "outline" []; layer "detail" []]));
       Stdout ("Saved layered SVG to: " ++ output args)%string;
       WriteFile (base ++ "_outline.svg")%string
         (SvgFile (new_drawing w h [] []));
       WriteFile (base ++ "_detail.svg")%string
         (SvgFile (new_drawing w h [] []));
       Stdout ("Wrote: " ++ base ++ "_outline.svg and "
                 ++ base ++ "_detail.svg")%string])%list,
   Raise (ValueError "bbox_from_polys: empty polygon/contour list")).

(** ** A worked example: a square ring

    A 7x7 drawing: a black ring one pixel thick with corners (1,1) and (5,5)
    around a white 3x3 centre, on white.  [cv_example] records what OpenCV
    computes on the masks the runs on this drawing (and on an all-white
    drawing) reach; it serves the concrete runs below. *)

Definition ring_image : image :=
  [ [255; 255; 255; 255; 255; 255; 255];
    [255;   0;   0;   0;   0;   0; 255];
    [255;   0; 255; 255; 255;   0; 255];
    [255;   0; 255; 255; 255;   0; 255];
    [255;   0; 255; 255; 255;   0; 255];
    [255;   0;   0;   0;   0;   0; 255];
    [255; 255; 255; 255; 255; 255; 255] ].

Definition white_image : image :=
  [ [255; 255; 255];
    [255; 255; 255] ].

(** The ring as a mask, and the white centre as a mask. *)
Definition ring_mask : image :=
  [ [0;   0;   0;   0;   0;   0; 0];
    [0; 255; 255; 255; 255; 255; 0];
    [0; 255;   0;   0;   0; 255; 0];
    [0; 255;   0;   0;   0; 255; 0];
    [0; 255;   0;   0;   0; 255; 0];
    [0; 255; 255; 255; 255; 255; 0];
    [0;   0;   0;   0;   0;   0; 0] ].

Definition centre_mask : image :=
  [ [0; 0;   0;   0;   0; 0; 0];
    [0; 0;   0;   0;   0; 0; 0];
    [0; 0; 255; 255; 255; 0; 0];
    [0; 0; 255; 255; 255; 0; 0];
    [0; 0; 255; 255; 255; 0; 0];
    [0; 0;   0;   0;   0; 0; 0];
    [0; 0;   0;   0;   0; 0; 0] ].

(** Their outer borders, traced from the top-left corner, as (x, y). *)
Definition ring_border : contour := [(1, 1); (1, 5); (5, 5); (5, 1)].
Definition centre_border : contour := [(2, 2); (2, 4); (4, 4); (4, 2)].

Definition image_eq_dec : forall a b : image, {a = b} + {a <> b} :=
  list_eq_dec (list_eq_dec Z.eq_dec).

(** The edges of a closed polygon: each point with its successor, the last
    with the first. *)
Definition closed_edges (c : contour) : list (point * point) :=
  match c with
  | [] => []
  | p :: rest => combine c (rest ++ [p])
  end.

(** The shoelace formula, [|sum (x1*y2 - x2*y1)| / 2]. *)
Definition shoelace_area (c : contour) : Q :=
  Z.abs (fold_right (fun e acc =>
                       let '((x1, y1), (x2, y2)) := e in
                       x1 * y2 - x2 * y1 + acc) 0 (closed_edges c)) # 2.

(** The perimeter; exact when every edge is parallel to an axis. *)
Definition closed_length (c : contour) : Q :=
  inject_Z (fold_right (fun e acc =>
                          let '((x1, y1), (x2, y2)) := e in
                          Z.sqrt ((x2 - x1) * (x2 - x1) + (y2 - y1) * (y2 - y1))
                          + acc) 0 (closed_edges c)).

(** The first stage of OpenCV's closed-curve approximation: when no point is
    farther than epsilon from the start, the start alone is kept; the
    polygons of the example are otherwise left as they are, their corners
    being far from every chord. *)
Definition approx_example (c : contour) (epsilon : Q) : contour :=
  match c with
  | [] => []
  | (x0, y0) :: rest =>
      if forallb (fun pt =>
                    Qle_bool (inject_Z ((fst pt - x0) * (fst pt - x0)
                                        + (snd pt - y0) * (snd pt - y0)))
                             (epsilon * epsilon)) rest
      then [(x0, y0)]
      else c
  end.

(** Filling a contour whose edges are parallel to the axes, or a single
    point: the pixels between its extreme coordinates, borders included. *)
Definition in_extent (c : contour) (y x : Z) : bool :=
  match c with
  | [] => false
  | (x0, y0) :: rest =>
      (fold_left Z.min (map fst rest) x0 <=? x)
      && (x <=? fold_left Z.max (map fst rest) x0)
      && (fold_left Z.min (map snd rest) y0 <=? y)
      && (y <=? fold_left Z.max (map snd rest) y0)
  end.

#[local] Instance cv_example : OpenCV := {
  imread path :=
    if String.eqb path "ring.png" then Some ring_image
    else if String.eqb path "white.png" then Some white_image
    else None;
  GaussianBlur img _ := img;
  findContours binary mode :=
    if image_eq_dec binary centre_mask then [centre_border]
    else if image_eq_dec binary ring_mask then
      match mode with
      | RETR_EXTERNAL => [ring_border]
      | RETR_TREE => []
      end
    else [];
  contourArea := shoelace_area;
  arcLength := closed_length;
  approxPolyDP := approx_example;
  filled contours y x := existsb (fun c => in_extent c y x) contours
}.

Definition ring_args : Args :=
  mkArgs "ring.png" "ring.svg" 180 false 3 0 (1 # 100) (50 # 1) false.

Definition white_args : Args := default_args "white.png" "white.svg".

(** ** A second example: three blobs

    A drawing 5 pixels wide and 12 high with three black blobs one above the
    other: two squares of 3x3 pixels and, at the bottom, a square of 2x2.
    [cv_blobs] records what OpenCV computes on the masks that a run on this
    drawing reaches; [cv2.findContours] returns the borders last found
    first, so from the bottom blob up. *)

Definition blobs_image : image :=
  [ [255; 255; 255; 255; 255];
    [255;   0;   0;   0; 255];
    [255;   0;   0;   0; 255];
    [255;   0;   0;   0; 255];
    [255; 255; 255; 255; 255];
    [255;   0;   0;   0; 255];
    [255;   0;   0;   0; 255];
    [255;   0;   0;   0; 255];
    [255; 255; 255; 255; 255];
    [255;   0;   0; 255; 255];
    [255;   0;   0; 255; 255];
    [255; 255; 255; 255; 255] ].

Definition blobs_mask : image :=
  [ [0;   0;   0;   0; 0];
    [0; 255; 255; 255; 0];
    [0; 255; 255; 255; 0];
    [0; 255; 255; 255; 0];
    [0;   0;   0;   0; 0];
    [0; 255; 255; 255; 0];
    [0; 255; 255; 255; 0];
    [0; 255; 255; 255; 0];
    [0;   0;   0;   0; 0];
    [0; 255; 255;   0; 0];
    [0; 255; 255;   0; 0];
    [0;   0;   0;   0; 0] ].

(** The borders of the three blobs, as (x, y). *)
Definition upper_blob : contour := [(1, 1); (1, 3); (3, 3); (3, 1)].
Definition lower_blob : contour := [(1, 5); (1, 7); (3, 7); (3, 5)].
Definition small_blob : contour := [(1, 9); (1, 10); (2, 10); (2, 9)].

(** The mask with the lower of the two large blobs alone. *)
Definition lower_blob_mask : image :=
  [ [0;   0;   0;   0; 0];
    [0;   0;   0;   0; 0];
    [0;   0;   0;   0; 0];
    [0;   0;   0;   0; 0];
    [0;   0;   0;   0; 0];
    [0; 255; 255; 255; 0];
    [0; 255; 255; 255; 0];
    [0; 255; 255; 255; 0];
    [0;   0;   0;   0; 0];
    [0;   0;   0;   0; 0];
    [0;   0;   0;   0; 0];
    [0;   0;   0;   0; 0] ].

Definition cv_blobs : OpenCV := {|
  imread path :=
    if String.eqb path "blobs.png" then Some blobs_image else None;
  GaussianBlur img _ := img;
  findContours binary mode :=
    if image_eq_dec binary blobs_mask
    then [small_blob; lower_blob; upper_blob]
    else [];
  contourArea := shoelace_area;
  arcLength := closed_length;
  approxPolyDP := approx_example;
  filled contours y x := existsb (fun c => in_extent c y x) contours
|}.

Definition blobs_args : Args :=
  mkArgs "blobs.png" "blobs.svg" 180 false 3 0 (1 # 100) (50 # 1) false.

(** * Properties *)

(** ** Floats and the reductions of numpy *)

Lemma fold_min_shift (d : Z) (xs : list Z) (x : Z) :
  fold_left Z.min (map (fun z => z + d) xs) (x + d) = fold_left Z.min xs x + d.
Proof.
  revert x; induction xs as [| y xs IH]; intros x; simpl; [reflexivity |].
  rewrite <- IH. f_equal. lia.
Qed.

Lemma fold_max_shift (d : Z) (xs : list Z) (x : Z) :
  fold_left Z.max (map (fun z => z + d) xs) (x + d) = fold_left Z.max xs x + d.
Proof.
  revert x; induction xs as [| y xs IH]; intros x; simpl; [reflexivity |].
  rewrite <- IH. f_equal. lia.
Qed.

Lemma fold_min_assoc (xs : list Z) (x y : Z) :
  fold_left Z.min xs (Z.min x y) = Z.min x (fold_left Z.min xs y).
Proof.
  revert y; induction xs as [| z xs IH]; intros y; simpl; [reflexivity |].
  now rewrite <- Z.min_assoc, IH.
Qed.

Lemma fold_max_assoc (xs : list Z) (x y : Z) :
  fold_left Z.max xs (Z.max x y) = Z.max x (fold_left Z.max xs y).
Proof.
  revert y; induction xs as [| z xs IH]; intros y; simpl; [reflexivity |].
  now rewrite <- Z.max_assoc, IH.
Qed.

Lemma py_min_Fin (x y : Z) : py_min (Fin x) (Fin y) = Fin (Z.min x y).
Proof.
  unfold py_min; simpl. destruct (Z.ltb_spec y x); f_equal; lia.
Qed.

Lemma py_max_Fin (x y : Z) : py_max (Fin x) (Fin y) = Fin (Z.max x y).
Proof.
  unfold py_max; simpl. destruct (Z.ltb_spec x y); f_equal; lia.
Qed.

Lemma py_min_Fin_twice (a : pyfloat) (x m : Z) :
  py_min (py_min a (Fin x)) (Fin m) = py_min a (Fin (Z.min x m)).
Proof.
  unfold py_min.
  destruct a as [| z | |]; simpl; try reflexivity.
  - destruct (Z.ltb_spec x z); simpl;
      destruct (Z.ltb_spec m x), (Z.ltb_spec m z), (Z.ltb_spec (Z.min x m) z);
      try (f_equal; lia); try lia.
  - destruct (Z.ltb_spec m x); f_equal; lia.
Qed.

Lemma py_max_Fin_twice (a : pyfloat) (x m : Z) :
  py_max (py_max a (Fin x)) (Fin m) = py_max a (Fin (Z.max x m)).
Proof.
  unfold py_max.
  destruct a as [| z | |]; simpl; try reflexivity.
  - destruct (Z.ltb_spec x m); f_equal; lia.
  - destruct (Z.ltb_spec z x); simpl;
      destruct (Z.ltb_spec x m), (Z.ltb_spec z m), (Z.ltb_spec z (Z.max x m));
      try (f_equal; lia); try lia.
Qed.

Lemma fold_py_min (zs : list Z) (z : Z) (a : pyfloat) :
  fold_left (fun a z => py_min a (Fin z)) (z :: zs) a
  = py_min a (Fin (fold_left Z.min zs z)).
Proof.
  revert z a; induction zs as [| y zs IH]; intros z a; [reflexivity |].
  change (fold_left (fun a z => py_min a (Fin z)) (z :: y :: zs) a)
    with (fold_left (fun a z => py_min a (Fin z)) (y :: zs) (py_min a (Fin z))).
  rewrite IH, py_min_Fin_twice. cbn [fold_left].
  now rewrite fold_min_assoc.
Qed.

Lemma fold_py_max (zs : list Z) (z : Z) (a : pyfloat) :
  fold_left (fun a z => py_max a (Fin z)) (z :: zs) a
  = py_max a (Fin (fold_left Z.max zs z)).
Proof.
  revert z a; induction zs as [| y zs IH]; intros z a; [reflexivity |].
  change (fold_left (fun a z => py_max a (Fin z)) (z :: y :: zs) a)
    with (fold_left (fun a z => py_max a (Fin z)) (y :: zs) (py_max a (Fin z))).
  rewrite IH, py_max_Fin_twice. cbn [fold_left].
  now rewrite fold_max_assoc.
Qed.

(** The reductions of an array of finite floats. *)
Lemma np_min_Fin (x : Z) (xs : list Z) :
  np.min (Fin x :: map Fin xs) = Ok (Fin (fold_left Z.min xs x)).
Proof.
  cbn [np.min]. f_equal.
  revert x; induction xs as [| y xs IH]; intros x; cbn [map fold_left];
    [reflexivity |].
  now rewrite py_min_Fin, IH.
Qed.

Lemma np_max_Fin (x : Z) (xs : list Z) :
  np.max (Fin x :: map Fin xs) = Ok (Fin (fold_left Z.max xs x)).
Proof.
  cbn [np.max]. f_equal.
  revert x; induction xs as [| y xs IH]; intros x; cbn [map fold_left];
    [reflexivity |].
  now rewrite py_max_Fin, IH.
Qed.

(** ** Integers as doubles *)

Lemma pow2_53_lt_pow2_1024 : 2 ^ 53 < 2 ^ 1024.
Proof. apply Z.pow_lt_mono_r; lia. Qed.

(** An integer up to 2^53 in magnitude is its own nearest double. *)
Lemma round_double_exact (z : Z) :
  in_float_range z = true -> round_double z = z.
Proof.
  unfold in_float_range, round_double. intros H. apply Z.leb_le in H.
  destruct (Z.ltb_spec (Z.abs z) (2 ^ 53)) as [Hlt | Hge]; [reflexivity |].
  assert (Hz : z = 2 ^ 53 \/ z = - 2 ^ 53) by lia.
  destruct Hz as [-> | ->]; vm_compute; reflexivity.
Qed.

Lemma overflows_exact (z : Z) : in_float_range z = true -> overflows z = false.
Proof.
  intros H. unfold overflows. rewrite (round_double_exact _ H).
  unfold in_float_range in H. apply Z.leb_le in H. apply Z.leb_gt.
  pose proof pow2_53_lt_pow2_1024. lia.
Qed.

Lemma float_of_int_spec (z : Z) :
  float_of_int z
  = if overflows z
    then Raise (OverflowError "int too large to convert to float")
    else Ok (Fin (round_double z)).
Proof. reflexivity. Qed.

Lemma float_of_int_exact (z : Z) :
  in_float_range z = true -> float_of_int z = Ok (Fin z).
Proof.
  intros H.
  now rewrite float_of_int_spec, (overflows_exact _ H), (round_double_exact _ H).
Qed.

(** Half-way between two doubles the even mantissa wins: 2^53 + 1 goes down to
    2^53, and 2^53 + 3 goes up to 2^53 + 4. *)
Example round_double_ties :
  round_double (2 ^ 53 + 1) = 2 ^ 53
  /\ round_double (2 ^ 53 + 2) = 2 ^ 53 + 2
  /\ round_double (2 ^ 53 + 3) = 2 ^ 53 + 4
  /\ round_double (- (2 ^ 53 + 1)) = - 2 ^ 53.
Proof. repeat split; vm_compute; reflexivity. Qed.

(** The greatest double is (2^53 - 1) * 2^971; from half a step above it on,
    [float] raises. *)
Example float_of_int_overflow :
  float_of_int ((2 ^ 53 - 1) * 2 ^ 971) = Ok (Fin ((2 ^ 53 - 1) * 2 ^ 971))
  /\ float_of_int (2 ^ 1024 - 2 ^ 970 - 1) = Ok (Fin ((2 ^ 53 - 1) * 2 ^ 971))
  /\ float_of_int (2 ^ 1024 - 2 ^ 970)
     = Raise (OverflowError "int too large to convert to float").
Proof. repeat split; vm_compute; reflexivity. Qed.

Lemma map_result_float_of_int (zs : list Z) :
  map_result float_of_int zs
  = if existsb overflows zs
    then Raise (OverflowError "int too large to convert to float")
    else Ok (map Fin (map round_double zs)).
Proof.
  induction zs as [| z zs IH]; [reflexivity |].
  cbn [map_result existsb map]. rewrite float_of_int_spec, IH.
  destruct (overflows z); [reflexivity |].
  destruct (existsb overflows zs); reflexivity.
Qed.

Lemma existsb_fst_snd (f : Z -> bool) (pts : list point) :
  existsb f (map fst pts) || existsb f (map snd pts)
  = existsb (fun pt => f (fst pt) || f (snd pt)) pts.
Proof.
  induction pts as [| [x y] pts IH]; [reflexivity |].
  cbn [map existsb fst snd]. rewrite <- IH.
  destruct (f x), (f y), (existsb f (map fst pts)),
    (existsb f (map snd pts)); reflexivity.
Qed.

Lemma map_fst_round (pts : list point) :
  map round_double (map fst pts) = map fst (map round_point pts).
Proof. rewrite !map_map. reflexivity. Qed.

Lemma map_snd_round (pts : list point) :
  map round_double (map snd pts) = map snd (map round_point pts).
Proof. rewrite !map_map. reflexivity. Qed.

Lemma exact_points_app (a b : list point) :
  exact_points (a ++ b) = exact_points a && exact_points b.
Proof. apply forallb_app. Qed.

Lemma round_points_exact (pts : list point) :
  exact_points pts = true -> map round_point pts = pts.
Proof.
  induction pts as [| [x y] pts IH]; [reflexivity |].
  unfold exact_points. cbn [forallb fst snd map]. intros H.
  apply andb_true_iff in H as [H Hpts]. apply andb_true_iff in H as [Hx Hy].
  unfold round_point at 1. cbn [fst snd].
  now rewrite (round_double_exact _ Hx), (round_double_exact _ Hy), IH.
Qed.

Lemma any_overflow_exact (pts : list point) :
  exact_points pts = true -> any_overflow pts = false.
Proof.
  induction pts as [| [x y] pts IH]; [reflexivity |].
  unfold exact_points, any_overflow. cbn [forallb existsb fst snd]. intros H.
  apply andb_true_iff in H as [H Hpts]. apply andb_true_iff in H as [Hx Hy].
  rewrite (overflows_exact _ Hx), (overflows_exact _ Hy). now apply IH.
Qed.

(** ** bbox_from_polys: what it returns and when it raises *)

Lemma bbox_extend_nil (st : bbox_state) : bbox_extend st [] = st.
Proof.
  destruct st. unfold bbox_extend. cbn [map fold_left length min_x min_y max_x
                                        max_y n_points].
  now rewrite Nat.add_0_r.
Qed.

Lemma bbox_extend_cons (st : bbox_state) (x y : Z) (pts : list point) :
  bbox_extend (mkBBox (py_min (min_x st) (Fin x)) (py_min (min_y st) (Fin y))
                      (py_max (max_x st) (Fin x)) (py_max (max_y st) (Fin y))
                      (S (n_points st))) pts
  = bbox_extend st ((x, y) :: pts).
Proof.
  unfold bbox_extend.
  cbn [map fold_left length fst snd min_x min_y max_x max_y n_points].
  f_equal. lia.
Qed.

Lemma bbox_extend_app (st : bbox_state) (a b : list point) :
  bbox_extend (bbox_extend st a) b = bbox_extend st (a ++ b).
Proof.
  unfold bbox_extend. cbn [min_x min_y max_x max_y n_points].
  rewrite !map_app, !fold_left_app, length_app. f_equal. lia.
Qed.

(** The loop over pairs of Python ints: it stops at the first coordinate
    without a finite nearest double, and otherwise adds the rounded points. *)
Lemma bbox_iterate_pairs (pts : list point) (st : bbox_state) :
  match bbox_iterate st (map ItemPair pts) with
  | Ok st' =>
      any_overflow pts = false /\ st' = bbox_extend st (map round_point pts)
  | Raise _ => any_overflow pts = true
  end.
Proof.
  revert st; induction pts as [| [x y] pts IH]; intros st.
  - cbn [map bbox_iterate]. now rewrite bbox_extend_nil.
  - cbn [map bbox_iterate]. unfold bbox_add_point.
    rewrite !float_of_int_spec. unfold any_overflow. cbn [existsb fst snd].
    destruct (overflows x); [reflexivity |].
    destruct (overflows y); [reflexivity |].
    cbn [result_bind orb].
    match goal with
    | |- context [bbox_iterate ?s _] => specialize (IH s)
    end.
    destruct (bbox_iterate _ (map ItemPair pts)) as [st' | e]; [| exact IH].
    destruct IH as [Hov ->]. split; [exact Hov |].
    unfold round_point at 2. cbn [fst snd]. apply bbox_extend_cons.
Qed.

Lemma bbox_fallback_pairs (st : bbox_state) (p : poly) :
  iter_items p = map ItemPair (poly_points p) ->
  bbox_fallback st p
  = if any_overflow (poly_points p) then Raise (unsupported p)
    else Ok (bbox_extend st (map round_point (poly_points p))).
Proof.
  intros Hitems. unfold bbox_fallback. rewrite Hitems.
  pose proof (bbox_iterate_pairs (poly_points p) st) as H.
  destruct (bbox_iterate st (map ItemPair (poly_points p))) as [st' | e].
  - destruct H as [-> ->]. reflexivity.
  - now rewrite H.
Qed.

(** The fast path on an array with a row, once its columns are floats. *)
Lemma bbox_add_array_floats (st : bbox_state) (p : poly) (pts : list point) :
  pts <> [] ->
  length pts = length (poly_points p) ->
  astype_float p (map fst (poly_points p)) = Ok (map Fin (map fst pts)) ->
  astype_float p (map snd (poly_points p)) = Ok (map Fin (map snd pts)) ->
  bbox_add_array st p = Ok (bbox_extend st pts).
Proof.
  intros Hne Hlen Hx Hy. unfold bbox_add_array. cbv zeta.
  rewrite Hx, Hy. cbn [result_bind].
  destruct pts as [| [x y] pts]; [congruence |].
  cbn [map fst snd]. rewrite !np_min_Fin, !np_max_Fin. cbn [result_bind].
  unfold bbox_extend. rewrite <- Hlen.
  change (map fst ((x, y) :: pts)) with (x :: map fst pts).
  change (map snd ((x, y) :: pts)) with (y :: map snd pts).
  now rewrite !fold_py_min, !fold_py_max.
Qed.

Lemma bbox_add_array_ndarray (st : bbox_state) (p : poly) :
  astype_float p = (fun zs => Ok (map Fin zs)) ->
  poly_points p <> [] ->
  bbox_add_array st p = Ok (bbox_extend st (poly_points p)).
Proof.
  intros Hp Hne. apply bbox_add_array_floats; try assumption;
    try reflexivity; now rewrite Hp.
Qed.

Lemma bbox_add_array_list (st : bbox_state) (pts : list point) :
  pts <> [] ->
  bbox_add_array st (PairList pts)
  = if any_overflow pts
    then Raise (OverflowError "int too large to convert to float")
    else Ok (bbox_extend st (map round_point pts)).
Proof.
  intros Hne. unfold any_overflow. rewrite <- existsb_fst_snd.
  destruct (existsb overflows (map fst pts)) eqn:Hx.
  - unfold bbox_add_array. cbv zeta. cbn [astype_float poly_points].
    now rewrite map_result_float_of_int, Hx.
  - destruct (existsb overflows (map snd pts)) eqn:Hy.
    + unfold bbox_add_array. cbv zeta. cbn [astype_float poly_points].
      now rewrite !map_result_float_of_int, Hx, Hy.
    + cbn [orb]. apply bbox_add_array_floats.
      * destruct pts; [congruence | discriminate].
      * now rewrite length_map.
      * cbn [astype_float poly_points].
        now rewrite map_result_float_of_int, Hx, map_fst_round.
      * cbn [astype_float poly_points].
        now rewrite map_result_float_of_int, Hy, map_snd_round.
Qed.

(** One round of the loop: the element raises its error, or its points, as
    floats, are added to the state. *)
Lemma bbox_step_spec (st : bbox_state) (p : poly) :
  bbox_step st p
  = match element_error p with
    | Some e => Raise e
    | None => Ok (bbox_extend st (float_points p))
    end.
Proof.
  destruct p as [| pts | pts | pts | pts | zs].
  - cbn. now rewrite bbox_extend_nil.
  - destruct pts as [| pt pts]; [reflexivity |].
    cbn [element_error float_points poly_points].
    change (bbox_step st (Contour (pt :: pts)))
      with (bbox_add_array st (Contour (pt :: pts))).
    now apply bbox_add_array_ndarray.
  - destruct pts as [| pt pts]; [reflexivity |].
    cbn [element_error float_points poly_points].
    change (bbox_step st (Points (pt :: pts)))
      with (bbox_add_array st (Points (pt :: pts))).
    now apply bbox_add_array_ndarray.
  - destruct pts as [| pt pts].
    + cbn. now rewrite bbox_extend_nil.
    + change (bbox_step st (PairList (pt :: pts)))
        with (bbox_add_array st (PairList (pt :: pts))).
      rewrite bbox_add_array_list by discriminate.
      cbn [element_error float_points].
      destruct (any_overflow (pt :: pts)); reflexivity.
  - change (bbox_step st (PairIter pts)) with (bbox_fallback st (PairIter pts)).
    rewrite bbox_fallback_pairs by reflexivity.
    cbn [element_error float_points poly_points].
    destruct (any_overflow pts); reflexivity.
  - destruct zs as [| z zs].
    + cbn. now rewrite bbox_extend_nil.
    + reflexivity.
Qed.

Lemma bbox_loop_spec (polys : list poly) (st : bbox_state) :
  bbox_loop st polys
  = match first_error polys with
    | Some e => Raise e
    | None => Ok (bbox_extend st (all_float_points polys))
    end.
Proof.
  revert st; induction polys as [| p polys IH]; intros st.
  - cbn. now rewrite bbox_extend_nil.
  - cbn [bbox_loop first_error]. rewrite bbox_step_spec.
    destruct (element_error p) as [e |]; [reflexivity |].
    cbn [result_bind]. rewrite IH.
    destruct (first_error polys) as [e |]; [reflexivity |].
    unfold all_float_points. cbn [map concat].
    now rewrite bbox_extend_app.
Qed.

Lemma bbox_from_polys_outcome_aux (polys : list poly) :
  bbox_from_polys polys
  = match first_error polys with
    | Some e => Raise e
    | None => box_around (all_float_points polys)
    end.
Proof.
  unfold bbox_from_polys. rewrite bbox_loop_spec.
  destruct (first_error polys) as [e |]; [reflexivity |].
  cbn [result_bind].
  destruct (all_float_points polys) as [| [x y] rest]; [reflexivity |].
  unfold bbox_extend, box_around.
  cbn [bbox_init min_x min_y max_x max_y n_points length Nat.add Nat.eqb].
  change (map fst ((x, y) :: rest)) with (x :: map fst rest).
  change (map snd ((x, y) :: rest)) with (y :: map snd rest).
  now rewrite !fold_py_min, !fold_py_max.
Qed.

(** Elements that are well formed and hold integers that are doubles raise
    nothing, and their points are taken as they are. *)
Lemma first_error_exact (polys : list poly) :
  existsb empty_ndarray polys = false ->
  forallb pairs_only polys = true ->
  exact_points (all_points polys) = true ->
  first_error polys = None /\ all_float_points polys = all_points polys.
Proof.
  unfold all_float_points, all_points.
  induction polys as [| p polys IH]; intros Hrows Hpairs Hexact;
    [split; reflexivity |].
  cbn [existsb] in Hrows. apply orb_false_iff in Hrows as [Hp Hrows].
  cbn [forallb] in Hpairs. apply andb_true_iff in Hpairs as [Hq Hpairs].
  cbn [map concat] in Hexact. rewrite exact_points_app in Hexact.
  apply andb_true_iff in Hexact as [He Hexact].
  destruct (IH Hrows Hpairs Hexact) as [IH1 IH2].
  cbn [first_error map concat]. rewrite IH1, IH2.
  assert (H : element_error p = None /\ float_points p = poly_points p).
  { destruct p as [| pts | pts | pts | pts | zs]; cbn [poly_points] in He.
    - split; reflexivity.
    - destruct pts; [discriminate | split; reflexivity].
    - destruct pts; [discriminate | split; reflexivity].
    - cbn [element_error float_points poly_points].
      now rewrite (any_overflow_exact _ He), (round_points_exact _ He).
    - cbn [element_error float_points poly_points].
      now rewrite (any_overflow_exact _ He), (round_points_exact _ He).
    - destruct zs; [split; reflexivity | discriminate]. }
  destruct H as [-> ->]. split; reflexivity.
Qed.

(** When no element of [polys] is an ndarray without rows, every element is
    made of pairs and every coordinate is an integer up to 2^53 in magnitude,
    [bbox_from_polys] raises its ValueError exactly when there is no point at
    all, and otherwise returns the least and greatest coordinates over all
    points. *)
Lemma bbox_from_polys_without_empty_ndarray (polys : list poly) :
  existsb empty_ndarray polys = false ->
  forallb pairs_only polys = true ->
  exact_points (all_points polys) = true ->
  bbox_from_polys polys
  = match all_points polys with
    | [] => Raise (ValueError "bbox_from_polys: empty polygon/contour list")
    | (x, y) :: rest =>
        Ok (Fin (fold_left Z.min (map fst rest) x),
            Fin (fold_left Z.min (map snd rest) y),
            Fin (fold_left Z.max (map fst rest) x),
            Fin (fold_left Z.max (map snd rest) y))
    end.
Proof.
  intros Hrows Hpairs Hexact. rewrite bbox_from_polys_outcome_aux.
  destruct (first_error_exact _ Hrows Hpairs Hexact) as [-> ->].
  reflexivity.
Qed.

(** C2. [bbox_from_polys] on an OpenCV contour of one point followed by an
    ndarray of shape (0,1,2): there is one point in all, and the call raises
    the ValueError of numpy's reduction of a zero-size array instead of
    returning the box (1, 2, 1, 2). *)
Theorem bbox_from_polys_empty_ndarray_raises :
  total_points [Contour [(1, 2)]; Contour []] = 1%nat
  /\ bbox_from_polys [Contour [(1, 2)]; Contour []]
     = Raise (ValueError (np.zero_size_msg "minimum"))
  /\ bbox_from_polys [Contour [(1, 2)]; PairList []]
     = Ok (Fin 1, Fin 2, Fin 1, Fin 2).
Proof. repeat split; reflexivity. Qed.

(** ** bbox_from_polys: translation *)

Lemma map_fst_translate (dx dy : Z) (pts : list point) :
  map fst (map (translate_point dx dy) pts) = map (fun z => z + dx) (map fst pts).
Proof. induction pts as [| pt pts IH]; simpl; [| rewrite IH]; reflexivity. Qed.

Lemma map_snd_translate (dx dy : Z) (pts : list point) :
  map snd (map (translate_point dx dy) pts) = map (fun z => z + dy) (map snd pts).
Proof. induction pts as [| pt pts IH]; simpl; [| rewrite IH]; reflexivity. Qed.

Lemma all_points_translate (dx dy : Z) (polys : list poly) :
  all_points (map (translate_poly dx dy) polys)
  = map (translate_point dx dy) (all_points polys).
Proof.
  unfold all_points. induction polys as [| p polys IH]; [reflexivity |].
  cbn [map concat]. rewrite IH, map_app. f_equal. destruct p; reflexivity.
Qed.

Lemma empty_ndarray_translate (dx dy : Z) (polys : list poly) :
  existsb empty_ndarray (map (translate_poly dx dy) polys)
  = existsb empty_ndarray polys.
Proof.
  induction polys as [| p polys IH]; [reflexivity |].
  cbn [map existsb]. rewrite IH. f_equal.
  destruct p as [| [| pt pts] | [| pt pts] | pts | pts | zs]; reflexivity.
Qed.

Lemma pairs_only_translate (dx dy : Z) (polys : list poly) :
  forallb pairs_only (map (translate_poly dx dy) polys)
  = forallb pairs_only polys.
Proof.
  induction polys as [| p polys IH]; [reflexivity |].
  cbn [map forallb]. rewrite IH. f_equal. destruct p; reflexivity.
Qed.

Lemma bbox_from_polys_translation_exact_aux
      (polys : list poly) (dx dy : Z) :
  existsb empty_ndarray polys = false ->
  forallb pairs_only polys = true ->
  all_points polys <> [] ->
  exact_points (all_points polys) = true ->
  exact_points (all_points (map (translate_poly dx dy) polys)) = true ->
  exists x0 y0 x1 y1 : Z,
    bbox_from_polys polys = Ok (Fin x0, Fin y0, Fin x1, Fin y1)
    /\ bbox_from_polys (map (translate_poly dx dy) polys)
       = Ok (Fin (x0 + dx), Fin (y0 + dy), Fin (x1 + dx), Fin (y1 + dy)).
Proof.
  intros Hrows Hpairs Hne Hexact Hexact'.
  rewrite (bbox_from_polys_without_empty_ndarray _ Hrows Hpairs Hexact).
  rewrite bbox_from_polys_without_empty_ndarray;
    [| now rewrite empty_ndarray_translate
     | now rewrite pairs_only_translate
     | exact Hexact'].
  rewrite all_points_translate.
  destruct (all_points polys) as [| [x y] rest]; [congruence |].
  do 4 eexists. split; [reflexivity |].
  cbn [map]. unfold translate_point at 1. cbn [fst snd].
  rewrite map_fst_translate, map_snd_translate.
  now rewrite !fold_min_shift, !fold_max_shift.
Qed.

(** The claim that a translation of the points moves the box by (dx, dy)
    exactly fails on Python ints that are not doubles: the one point
    (2^53 + 1, 0), given in a list, has the box from 2^53 to 2^53, for
    2^53 + 1 rounds to the even neighbour; moved by (1, 0) the point is the
    double 2^53 + 2, which is neither 2^53 + 1 nor the float sum of 2^53 and
    1, which rounds to 2^53 again. *)
Lemma bbox_from_polys_translation_rounds :
  total_points [PairList [(2 ^ 53 + 1, 0)]] = 1%nat
  /\ bbox_from_polys [PairList [(2 ^ 53 + 1, 0)]]
     = Ok (Fin (2 ^ 53), Fin 0, Fin (2 ^ 53), Fin 0)
  /\ bbox_from_polys (map (translate_poly 1 0) [PairList [(2 ^ 53 + 1, 0)]])
     = Ok (Fin (2 ^ 53 + 2), Fin 0, Fin (2 ^ 53 + 2), Fin 0)
  /\ bbox_from_polys (map (translate_poly 1 0) [PairList [(2 ^ 53 + 1, 0)]])
     <> result_map (shift_box 1 0)
                   (bbox_from_polys [PairList [(2 ^ 53 + 1, 0)]])
  /\ round_double (2 ^ 53 + 1) = 2 ^ 53.
Proof.
  split; [reflexivity |].
  split; [vm_compute; reflexivity |].
  split; [vm_compute; reflexivity |].
  split; [vm_compute; discriminate | vm_compute; reflexivity].
Qed.

(** C8, amended. [bbox_from_polys] is translation-equivariant on integers
    that are doubles: when the polygons have at least one point, none is an
    ndarray without rows, each is made of (x, y) pairs, and every coordinate,
    before and after (dx, dy) is added to every point, is at most 2^53 in
    magnitude, the function returns a box on both inputs, and the box of the
    translated points is the box of the original points with dx added to
    min_x and max_x and dy added to min_y and max_y, exactly. *)
Theorem bbox_from_polys_translation_exact :
  forall (polys : list poly) (dx dy : Z),
    existsb empty_ndarray polys = false ->
    forallb pairs_only polys = true ->
    all_points polys <> [] ->
    exact_points (all_points polys) = true ->
    exact_points (all_points (map (translate_poly dx dy) polys)) = true ->
    exists x0 y0 x1 y1 : Z,
      bbox_from_polys polys = Ok (Fin x0, Fin y0, Fin x1, Fin y1)
      /\ bbox_from_polys (map (translate_poly dx dy) polys)
         = Ok (Fin (x0 + dx), Fin (y0 + dy), Fin (x1 + dx), Fin (y1 + dy)).
Proof. exact bbox_from_polys_translation_exact_aux. Qed.

Lemma bbox_from_polys_translation_exact_witness :
  existsb empty_ndarray [Contour [(1, 2); (5, 0)]; PyNone; PairList [(3, 4)]]
  = false
  /\ forallb pairs_only [Contour [(1, 2); (5, 0)]; PyNone; PairList [(3, 4)]]
     = true
  /\ all_points [Contour [(1, 2); (5, 0)]; PyNone; PairList [(3, 4)]] <> []
  /\ exists x0 y0 x1 y1 : Z,
      bbox_from_polys [Contour [(1, 2); (5, 0)]; PyNone; PairList [(3, 4)]]
      = Ok (Fin x0, Fin y0, Fin x1, Fin y1)
      /\ bbox_from_polys
           (map (translate_poly 10 (-3))
                [Contour [(1, 2); (5, 0)]; PyNone; PairList [(3, 4)]])
         = Ok (Fin (x0 + 10), Fin (y0 + -3), Fin (x1 + 10), Fin (y1 + -3)).
Proof.
  assert (Hne : all_points
                  [Contour [(1, 2); (5, 0)]; PyNone; PairList [(3, 4)]] <> [])
    by (vm_compute; discriminate).
  split; [reflexivity | split; [reflexivity | split; [exact Hne |]]].
  apply (bbox_from_polys_translation_exact
           [Contour [(1, 2); (5, 0)]; PyNone; PairList [(3, 4)]] 10 (-3));
    [reflexivity | reflexivity | exact Hne
     | vm_compute; reflexivity | vm_compute; reflexivity].
Defined.

(** The run of that example: the box (1, 0)-(5, 4) moves to (11, -3)-(15, 1). *)
Example bbox_from_polys_translated_box :
  bbox_from_polys [Contour [(1, 2); (5, 0)]; PyNone; PairList [(3, 4)]]
  = Ok (Fin 1, Fin 0, Fin 5, Fin 4)
  /\ bbox_from_polys
       (map (translate_poly 10 (-3))
            [Contour [(1, 2); (5, 0)]; PyNone; PairList [(3, 4)]])
     = Ok (Fin 11, Fin (-3), Fin 15, Fin 1).
Proof. split; vm_compute; reflexivity. Qed.

(** ** Thresholding *)

Lemma threshold_pixel_inv_spec (t v : Z) :
  cv2.threshold_pixel t 255 THRESH_BINARY_INV v = if v <=? t then 255 else 0.
Proof.
  unfold cv2.threshold_pixel.
  destruct (Z.gtb_spec v t), (Z.leb_spec v t); try reflexivity; lia.
Qed.

Lemma threshold_pixel_sentinel (t v : Z) (ty : thresh_type) :
  sentinel (cv2.threshold_pixel t 255 ty v).
Proof.
  unfold sentinel, cv2.threshold_pixel.
  destruct ty; destruct (v >? t); auto.
Qed.

(** C4, as stated, fails where the pixel value equals the threshold: the
    inverted threshold makes such a pixel foreground. *)
Lemma threshold_pixel_equal_is_foreground :
  cv2.threshold [[180]] 180 255 THRESH_BINARY_INV = [[255]]
  /\ ~ (forall v t : Z,
           cv2.threshold_pixel t 255 THRESH_BINARY_INV v = 255 <-> v < t).
Proof.
  split; [reflexivity |].
  intros H. specialize (H 180 180). cbn in H.
  destruct H as [H _]. specialize (H eq_refl). lia.
Qed.

(** C4, amended. The inverted threshold maps a pixel value v to foreground
    (255) exactly when v is not lighter than the threshold (v <= t), and to
    background (0) exactly when v > t; a pixel equal to the threshold becomes
    foreground.  This is the mask that [main] starts from and, with the
    inversion off, what [binarize] returns of the (possibly blurred) image. *)
Theorem threshold_foreground_iff_not_lighter :
  forall (cv : OpenCV) (args : Args) (img_gray : image) (t blur_k v : Z),
    (cv2.threshold_pixel t 255 THRESH_BINARY_INV v = 255 <-> v <= t)
    /\ (cv2.threshold_pixel t 255 THRESH_BINARY_INV v = 0 <-> t < v)
    /\ cv2.threshold_pixel t 255 THRESH_BINARY_INV t = 255
    /\ thresholded_mask args img_gray
       = map (map (fun v => if v <=? threshold args then 255 else 0)) img_gray
    /\ binarize img_gray t blur_k false
       = map (map (fun v => if v <=? t then 255 else 0))
             (if negb (blur_k =? 0) && (blur_k >? 0) && (blur_k mod 2 =? 1)
              then GaussianBlur img_gray blur_k else img_gray).
Proof.
  intros cv args img_gray t blur_k v.
  rewrite !threshold_pixel_inv_spec.
  repeat split.
  - destruct (Z.leb_spec v t); [trivial | discriminate].
  - intros H. destruct (Z.leb_spec v t); [trivial | lia].
  - destruct (Z.leb_spec v t); [discriminate | trivial].
  - intros H. destruct (Z.leb_spec v t); [lia | trivial].
  - destruct (Z.leb_spec t t); [trivial | lia].
  - unfold thresholded_mask, cv2.threshold.
    apply map_ext; intros row. apply map_ext; intros p.
    apply threshold_pixel_inv_spec.
  - unfold binarize, cv2.threshold.
    apply map_ext; intros row. apply map_ext; intros p.
    apply threshold_pixel_inv_spec.
Qed.

(** ** Morphology *)

(** C6. Erosion with [iterations = 0] is the identity: for every mask and
    every structuring element [cv2.erode] returns the mask unchanged, pixel
    for pixel; so the eroded detail mask of [main] is the intersection mask
    itself. *)
Theorem erode_zero_iterations_identity :
  (forall mask kernel : image, cv2.erode mask kernel 0 = mask)
  /\ (forall (cv : OpenCV) (args : Args) (img_gray : image),
         white_inside_eroded args img_gray = white_inside args img_gray).
Proof. split; reflexivity. Qed.

(** ** Masks hold only 0 and 255 *)

Lemma In_mapi_from {A B} (f : Z -> A -> B) (l : list A) (i : Z) (b : B) :
  In b (mapi_from f i l) -> exists j a, In a l /\ b = f j a.
Proof.
  revert i; induction l as [| a l IH]; intros i; simpl; [tauto |].
  intros [<- | H].
  - exists i, a; auto.
  - destruct (IH _ H) as (j & a' & Ha & ->). exists j, a'; auto.
Qed.

Lemma In_mapi {A B} (f : Z -> A -> B) (l : list A) (b : B) :
  In b (mapi f l) -> exists j a, In a l /\ b = f j a.
Proof. apply In_mapi_from. Qed.

Lemma In_zip_with {A B C} (f : A -> B -> C) (l : list A) (m : list B) (c : C) :
  In c (zip_with f l m) -> exists a b, In a l /\ In b m /\ c = f a b.
Proof.
  revert m; induction l as [| a l IH]; intros [| b m]; simpl; try tauto.
  intros [<- | H].
  - exists a, b; auto.
  - destruct (IH _ H) as (a' & b' & Ha & Hb & ->). exists a', b'; auto.
Qed.

Lemma pixel_at_In (img : image) (y x v : Z) :
  pixel_at img y x = Some v -> exists row, In row img /\ In v row.
Proof.
  unfold pixel_at. destruct ((y <? 0) || (x <? 0)); [discriminate |].
  destruct (nth_error img (Z.to_nat y)) as [row |] eqn:Hrow; [| discriminate].
  intros Hv. exists row; split; eapply nth_error_In; eassumption.
Qed.

Lemma window_In (img : image) (offs : list (Z * Z)) (y x v : Z) :
  In v (cv2.window img offs y x) -> exists row, In row img /\ In v row.
Proof.
  unfold cv2.window. rewrite in_flat_map. intros ([dy dx] & _ & H).
  destruct (pixel_at img (y + fst (dy, dx)) (x + snd (dy, dx))) as [p |] eqn:Hp;
    [| contradiction].
  destruct H as [<- | []]. eapply pixel_at_In; eassumption.
Qed.

Lemma fold_max_sentinel (vs : list Z) :
  (forall v, In v vs -> sentinel v) -> sentinel (fold_right Z.max 0 vs).
Proof.
  induction vs as [| v vs IH]; intros H; simpl; [left; reflexivity |].
  destruct (H v (or_introl eq_refl)) as [-> | ->],
           (IH (fun u Hu => H u (or_intror Hu))) as [-> | ->];
    unfold sentinel; simpl; auto.
Qed.

Lemma fold_min_sentinel (vs : list Z) :
  (forall v, In v vs -> sentinel v) -> sentinel (fold_right Z.min 255 vs).
Proof.
  induction vs as [| v vs IH]; intros H; simpl; [right; reflexivity |].
  destruct (H v (or_introl eq_refl)) as [-> | ->],
           (IH (fun u Hu => H u (or_intror Hu))) as [-> | ->];
    unfold sentinel; simpl; auto.
Qed.

Lemma threshold_binary (src : image) (t : Z) (ty : thresh_type) :
  binary_mask (cv2.threshold src t 255 ty).
Proof.
  intros row Hrow v Hv. unfold cv2.threshold in Hrow.
  apply in_map_iff in Hrow as (row0 & <- & _).
  apply in_map_iff in Hv as (v0 & <- & _).
  apply threshold_pixel_sentinel.
Qed.

Lemma dilate_once_binary (kernel m : image) :
  binary_mask m -> binary_mask (cv2.dilate_once kernel m).
Proof.
  intros Hm row Hrow v Hv. unfold cv2.dilate_once in Hrow.
  apply In_mapi in Hrow as (y & row0 & _ & ->).
  apply In_mapi in Hv as (x & v0 & _ & ->).
  apply fold_max_sentinel. intros u Hu.
  apply window_In in Hu as (r & Hr & Hu). exact (Hm r Hr u Hu).
Qed.

Lemma erode_once_binary (kernel m : image) :
  binary_mask m -> binary_mask (cv2.erode_once kernel m).
Proof.
  intros Hm row Hrow v Hv. unfold cv2.erode_once in Hrow.
  apply In_mapi in Hrow as (y & row0 & _ & ->).
  apply In_mapi in Hv as (x & v0 & _ & ->).
  apply fold_min_sentinel. intros u Hu.
  apply window_In in Hu as (r & Hr & Hu). exact (Hm r Hr u Hu).
Qed.

Lemma iter_binary (f : image -> image) (n : nat) (m : image) :
  (forall m', binary_mask m' -> binary_mask (f m')) ->
  binary_mask m -> binary_mask (Nat.iter n f m).
Proof. intros Hf Hm. induction n as [| n IH]; simpl; auto. Qed.

Lemma dilate_binary (kernel m : image) (iterations : nat) :
  binary_mask m -> binary_mask (cv2.dilate m kernel iterations).
Proof.
  intros Hm. unfold cv2.dilate.
  destruct (cv2.morph_is_copy kernel iterations); [exact Hm |].
  apply iter_binary; [apply dilate_once_binary | exact Hm].
Qed.

Lemma erode_binary (kernel m : image) (iterations : nat) :
  binary_mask m -> binary_mask (cv2.erode m kernel iterations).
Proof.
  intros Hm. unfold cv2.erode.
  destruct (cv2.morph_is_copy kernel iterations); [exact Hm |].
  apply iter_binary; [apply erode_once_binary | exact Hm].
Qed.

Lemma zeros_no_foreground (h w : nat) : no_foreground (np.zeros h w).
Proof.
  intros row Hrow v Hv. unfold np.zeros in Hrow.
  apply repeat_spec in Hrow; subst row. now apply repeat_spec in Hv.
Qed.

Lemma no_foreground_binary (m : image) : no_foreground m -> binary_mask m.
Proof. intros H row Hrow v Hv. left. exact (H row Hrow v Hv). Qed.

Lemma drawContours_binary {cv : OpenCV} (m : image) (cs : list contour) :
  binary_mask m -> binary_mask (drawContours m cs 255).
Proof.
  intros Hm row Hrow v Hv. unfold drawContours in Hrow.
  apply In_mapi in Hrow as (y & row0 & Hrow0 & ->).
  apply In_mapi in Hv as (x & v0 & Hv0 & ->).
  destruct (filled cs y x); [right; reflexivity | exact (Hm row0 Hrow0 v0 Hv0)].
Qed.

Lemma bitwise_and_binary (a b : image) :
  binary_mask a -> binary_mask b -> binary_mask (cv2.bitwise_and a b).
Proof.
  intros Ha Hb row Hrow v Hv. unfold cv2.bitwise_and in Hrow.
  apply In_zip_with in Hrow as (ra & rb & Hra & Hrb & ->).
  apply In_zip_with in Hv as (va & vb & Hva & Hvb & ->).
  destruct (Ha ra Hra va Hva) as [-> | ->], (Hb rb Hrb vb Hvb) as [-> | ->];
    unfold sentinel; simpl; auto.
Qed.

Lemma shape_mask_binary {cv : OpenCV} (args : Args) (img_gray : image) :
  binary_mask (shape_mask args img_gray).
Proof.
  unfold shape_mask.
  destruct (outline_offset args >? 0).
  - apply dilate_binary, threshold_binary.
  - apply threshold_binary.
Qed.

Lemma silhouette_mask_binary {cv : OpenCV} (args : Args) (img_gray : image) :
  binary_mask (silhouette_mask args img_gray).
Proof.
  unfold silhouette_mask, select_outline.
  destruct (outline_contours args img_gray); cbn [snd].
  - apply no_foreground_binary, zeros_no_foreground.
  - apply drawContours_binary, no_foreground_binary, zeros_no_foreground.
Qed.

Lemma white_inside_binary {cv : OpenCV} (args : Args) (img_gray : image) :
  binary_mask (white_inside args img_gray).
Proof.
  apply bitwise_and_binary;
    [apply threshold_binary | apply silhouette_mask_binary].
Qed.

(** C7. For every image and every threshold, each mask of the pipeline holds
    only 0 and 255 at every pixel: the thresholded shape mask, the dilated
    mask, the filled silhouette mask, the per-pixel AND of the white mask with
    the silhouette, and the eroded detail mask. *)
Theorem pipeline_masks_are_binary :
  forall (cv : OpenCV) (args : Args) (img_gray : image),
    binary_mask (thresholded_mask args img_gray)
    /\ binary_mask (shape_mask args img_gray)
    /\ binary_mask (silhouette_mask args img_gray)
    /\ binary_mask (white_mask args img_gray)
    /\ binary_mask (white_inside args img_gray)
    /\ binary_mask (white_inside_eroded args img_gray).
Proof.
  intros cv args img_gray. repeat split.
  - apply threshold_binary.
  - apply shape_mask_binary.
  - apply silhouette_mask_binary.
  - apply threshold_binary.
  - apply white_inside_binary.
  - apply erode_binary, white_inside_binary.
Qed.

Lemma bitwise_not_binary (m : image) :
  binary_mask m -> binary_mask (cv2.bitwise_not m).
Proof.
  intros Hm row Hrow v Hv. unfold cv2.bitwise_not in Hrow.
  apply in_map_iff in Hrow as (row0 & <- & Hrow0).
  apply in_map_iff in Hv as (v0 & <- & Hv0).
  destruct (Hm row0 Hrow0 v0 Hv0) as [-> | ->]; unfold sentinel; simpl; auto.
Qed.

(** [binarize] returns a mask of 0 and 255, whatever the image, the
    threshold, the blur and the inversion. *)
Lemma binarize_binary {cv : OpenCV} (img : image) (t k : Z) (inv : bool) :
  binary_mask (binarize img t k inv).
Proof.
  unfold binarize. destruct inv.
  - apply bitwise_not_binary, threshold_binary.
  - apply threshold_binary.
Qed.

(** ** The largest contour *)



Section MaxBy.
Variable A : Type.
Variable key : A -> Q.



End MaxBy.

(** Among equal areas the first contour wins. *)
Example py_max_by_tie :
  py_max_by shoelace_area [(0, 0); (0, 1); (1, 1); (1, 0)]
            [ [(5, 5); (5, 7); (7, 7); (7, 5)];
              [(1, 1); (1, 3); (3, 3); (3, 1)];
              [(9, 9); (9, 10); (10, 10)] ]
  = [(5, 5); (5, 7); (7, 7); (7, 5)].
Proof. reflexivity. Qed.




(** The run on the three blobs: the contours come as the small blob, the
    lower large blob, the upper large blob; the small one, of area 1, comes
    before the one selected and is dropped; the two large ones both have area
    4, and the lower, which comes first, is selected; the outline layer holds
    it alone and the silhouette mask has neither the small blob nor the upper
    one. *)
Example blobs_outline_selection :
  outline_contours (cv := cv_blobs) blobs_args blobs_image
  = [small_blob] ++ lower_blob :: [upper_blob]
  /\ (contourArea (OpenCV := cv_blobs) small_blob == 1)%Q
  /\ (contourArea (OpenCV := cv_blobs) lower_blob == 4)%Q
  /\ (contourArea (OpenCV := cv_blobs) upper_blob == 4)%Q
  /\ outline_contours_filtered (cv := cv_blobs) blobs_args blobs_image
     = [lower_blob]
  /\ silhouette_mask (cv := cv_blobs) blobs_args blobs_image
     = lower_blob_mask
  /\ pixel_at (silhouette_mask (cv := cv_blobs) blobs_args blobs_image) 9 1
     = Some 0
  /\ pixel_at (silhouette_mask (cv := cv_blobs) blobs_args blobs_image) 2 2
     = Some 0
  /\ pixel_at (silhouette_mask (cv := cv_blobs) blobs_args blobs_image) 6 2
     = Some 255.
Proof. repeat split; vm_compute; reflexivity. Qed.

(** ** The detail document *)

Local Open Scope string_scope.

Lemma concat_starts (sep : string) (a : ascii) (s : string) (l : list string) :
  exists s', String.concat sep (String a s :: l) = String a s'.
Proof. destruct l; simpl; eauto. Qed.

(** The path string of a contour with a point starts with its move. *)
Lemma contour_to_path_d_nonempty (p : point) (rest : list point) :
  exists s, contour_to_path_d (p :: rest) = String "M" s.
Proof.
  destruct p as [x0 y0]. unfold contour_to_path_d. cbv zeta.
  apply concat_starts.
Qed.

Lemma contour_to_path_d_eqb (c : contour) :
  String.eqb (contour_to_path_d c) "" = negb (nonempty_contour c).
Proof.
  destruct c as [| p rest]; [reflexivity |].
  destruct (contour_to_path_d_nonempty p rest) as [s ->]. reflexivity.
Qed.

Lemma compound_parts_spec (contours : list contour) (parts : list string) :
  compound_parts parts contours
  = (parts ++ map contour_to_path_d (filter nonempty_contour contours))%list.
Proof.
  revert parts; induction contours as [| c cs IH]; intros parts;
    cbn [compound_parts filter].
  - now rewrite app_nil_r.
  - rewrite contour_to_path_d_eqb.
    destruct (nonempty_contour c); cbn [negb map].
    + rewrite IH, <- app_assoc. reflexivity.
    + apply IH.
Qed.

Lemma subpaths_concat_eqb (contours : list contour) :
  String.eqb
    (String.concat " " (map contour_to_path_d (filter nonempty_contour contours)))
    ""
  = is_empty (filter nonempty_contour contours).
Proof.
  destruct (filter nonempty_contour contours) as [| c cs] eqn:E; [reflexivity |].
  assert (Hc : nonempty_contour c = true).
  { assert (Hin : In c (filter nonempty_contour contours))
      by (rewrite E; left; reflexivity).
    now apply filter_In in Hin. }
  destruct c as [| p rest]; [discriminate |].
  cbn [map]. destruct (contour_to_path_d_nonempty p rest) as [s ->].
  destruct (concat_starts " " "M" s (map contour_to_path_d cs)) as [s' ->].
  reflexivity.
Qed.

(** Two contours and a contour without points between them: two subpaths,
    in input order. *)
Example compound_path_of_two :
  contours_to_compound_path_d [centre_border; []; [(-3, 0); (7, 12)]]
  = "M 2.00,2.00 L 2.00,4.00 L 4.00,4.00 L 4.00,2.00 Z M -3.00,0.00 L 7.00,12.00 Z".
Proof. reflexivity. Qed.

(** C9. The standalone detail document holds all detail contours (those with
    at least one point) as the subpaths of a single compound path, in the
    order of the input sequence, filled black, not stroked, with the even-odd
    fill rule; when there is no detail contour, no path element is emitted. *)
Theorem detail_document_is_one_evenodd_path :
  forall (w h : Z) (contours : list contour) (output_path : string),
    let subpaths :=
      map contour_to_path_d (filter nonempty_contour contours) in
    contours_to_compound_path_d contours = String.concat " " subpaths
    /\ dwg_elements (detail_evenodd_drawing w h contours)
       = match subpaths with
         | [] => []
         | _ => [EPath (mkPath (String.concat " " subpaths)
                               "black" "none" None (Some "evenodd"))]
         end
    /\ dwg_elements (detail_evenodd_drawing w h []) = []
    /\ write_svg_detail_evenodd w h contours output_path
       = ([WriteFile output_path
             (SvgFile (detail_evenodd_drawing w h contours))], Ok tt).
Proof.
  intros w h contours output_path subpaths.
  assert (Hd : contours_to_compound_path_d contours
               = String.concat " " subpaths).
  { unfold contours_to_compound_path_d. now rewrite compound_parts_spec. }
  repeat split; try assumption.
  unfold detail_evenodd_drawing. cbn [dwg_elements new_drawing].
  rewrite Hd. unfold subpaths. rewrite subpaths_concat_eqb.
  destruct (filter nonempty_contour contours); reflexivity.
Qed.

Local Close Scope string_scope.

(** ** A drawing with no dark pixel *)

Lemma threshold_all_lighter (t : Z) (img : image) :
  all_lighter t img ->
  no_foreground (cv2.threshold img t 255 THRESH_BINARY_INV).
Proof.
  intros H row Hrow v Hv. unfold cv2.threshold in Hrow.
  apply in_map_iff in Hrow as (row0 & <- & Hrow0).
  apply in_map_iff in Hv as (v0 & <- & Hv0).
  rewrite threshold_pixel_inv_spec.
  specialize (H row0 Hrow0 v0 Hv0).
  destruct (Z.leb_spec v0 t); [lia | reflexivity].
Qed.

Lemma fold_max_zero (vs : list Z) :
  (forall v, In v vs -> v = 0) -> fold_right Z.max 0 vs = 0.
Proof.
  induction vs as [| v vs IH]; intros H; simpl; [reflexivity |].
  rewrite IH by (intros u Hu; apply H; now right).
  rewrite (H v (or_introl eq_refl)). reflexivity.
Qed.

Lemma dilate_once_no_foreground (kernel m : image) :
  no_foreground m -> no_foreground (cv2.dilate_once kernel m).
Proof.
  intros Hm row Hrow v Hv. unfold cv2.dilate_once in Hrow.
  apply In_mapi in Hrow as (y & row0 & _ & ->).
  apply In_mapi in Hv as (x & v0 & _ & ->).
  apply fold_max_zero. intros u Hu.
  apply window_In in Hu as (r & Hr & Hu). exact (Hm r Hr u Hu).
Qed.

Lemma dilate_no_foreground (kernel m : image) (iterations : nat) :
  no_foreground m -> no_foreground (cv2.dilate m kernel iterations).
Proof.
  intros Hm. unfold cv2.dilate.
  destruct (cv2.morph_is_copy kernel iterations); [exact Hm |].
  induction iterations as [| n IH]; simpl; [exact Hm |].
  now apply dilate_once_no_foreground.
Qed.

Lemma bitwise_and_no_foreground (a b : image) :
  no_foreground b -> no_foreground (cv2.bitwise_and a b).
Proof.
  intros Hb row Hrow v Hv. unfold cv2.bitwise_and in Hrow.
  apply In_zip_with in Hrow as (ra & rb & Hra & Hrb & ->).
  apply In_zip_with in Hv as (va & vb & Hva & Hvb & ->).
  rewrite (Hb rb Hrb vb Hvb). apply Z.land_0_r.
Qed.

Section NoDarkPixel.
Context {cv : OpenCV}.
Variable args : Args.
Variable img_gray : image.
Hypothesis lighter : all_lighter (threshold args) img_gray.
Hypothesis background :
  forall m mode, no_foreground m -> findContours m mode = [].

Lemma shape_mask_no_foreground : no_foreground (shape_mask args img_gray).
Proof.
  unfold shape_mask, thresholded_mask.
  destruct (outline_offset args >? 0).
  - now apply dilate_no_foreground, threshold_all_lighter.
  - now apply threshold_all_lighter.
Qed.

Lemma no_outline_contours : outline_contours args img_gray = [].
Proof. apply background, shape_mask_no_foreground. Qed.

Lemma no_outline_contours_filtered :
  outline_contours_filtered args img_gray = [].
Proof.
  unfold outline_contours_filtered. now rewrite no_outline_contours.
Qed.

Lemma silhouette_mask_no_foreground :
  no_foreground (silhouette_mask args img_gray).
Proof.
  unfold silhouette_mask. rewrite no_outline_contours.
  apply zeros_no_foreground.
Qed.

Lemma no_detail_contours_filtered :
  detail_contours_filtered args img_gray = [].
Proof.
  unfold detail_contours_filtered, detail_contours, find_contours.
  rewrite background; [reflexivity |].
  apply bitwise_and_no_foreground, silhouette_mask_no_foreground.
Qed.

End NoDarkPixel.

Local Open Scope string_scope.

Lemma white_image_all_lighter :
  all_lighter (threshold white_args) white_image.
Proof.
  intros row Hrow v Hv. simpl in Hrow.
  destruct Hrow as [<- | [<- | []]]; simpl in Hv;
    repeat (destruct Hv as [<- | Hv]; [reflexivity |]); contradiction.
Qed.

Lemma cv_example_background (m : image) (mode : retr_mode) :
  no_foreground m -> findContours (OpenCV := cv_example) m mode = [].
Proof.
  intros H. cbn.
  destruct (image_eq_dec m centre_mask) as [-> | _].
  - specialize (H [0; 0; 255; 255; 255; 0; 0]). cbn in H.
    specialize (H ltac:(tauto) 255 ltac:(tauto)). discriminate.
  - destruct (image_eq_dec m ring_mask) as [-> | _]; [| reflexivity].
    specialize (H [0; 255; 255; 255; 255; 255; 0]). cbn in H.
    specialize (H ltac:(tauto) 255 ltac:(tauto)). discriminate.
Qed.

(** C3, as stated, fails: on an all-white drawing with the default arguments
    the run ends in the ValueError of [bbox_from_polys], not handled by
    [main]. *)
Lemma all_white_run_aborts :
  all_lighter (threshold white_args) white_image
  /\ outcome (main (cv := cv_example) white_args)
     = Raise (ValueError "bbox_from_polys: empty polygon/contour list")
  /\ ~ completes (main (cv := cv_example) white_args).
Proof.
  split; [exact white_image_all_lighter | split].
  - reflexivity.
  - unfold completes. vm_compute. discriminate.
Qed.

(** C3, amended. For every image whose binarization gives no foreground
    pixel, the run prints the no-outline warning (and the no-detail warning)
    to the diagnostic stream, has an empty outline contour set, writes the
    combined, outline and detail documents with no path in them, and then
    ends with the ValueError that [bbox_from_polys] raises on the empty
    outline, before any metadata is written. *)
Theorem no_foreground_run_warns_then_raises :
  forall (cv : OpenCV) (args : Args) (img_gray : image),
    imread (input args) = Some img_gray ->
    all_lighter (threshold args) img_gray ->
    (forall m mode, no_foreground m -> findContours m mode = []) ->
    outline_contours_filtered args img_gray = []
    /\ main args = no_foreground_run args img_gray
    /\ outcome (main args)
       = Raise (ValueError "bbox_from_polys: empty polygon/contour list").
Proof.
  intros cv args img_gray Hread Hlighter Hbg.
  pose proof (@no_outline_contours cv args img_gray Hlighter Hbg) as Ho.
  pose proof (@no_outline_contours_filtered cv args img_gray Hlighter Hbg)
    as Hof.
  pose proof (@no_detail_contours_filtered cv args img_gray Hlighter Hbg)
    as Hd.
  assert (Hmain : main args = no_foreground_run args img_gray).
  { unfold main, load_grayscale, no_foreground_run. rewrite Hread.
    cbn [bind ret]. rewrite Ho, Hof, Hd.
    destruct (debug args); reflexivity. }
  split; [exact Hof | split; [exact Hmain |]].
  rewrite Hmain. reflexivity.
Qed.

Lemma no_foreground_run_warns_then_raises_witness :
  imread (OpenCV := cv_example) (input white_args) = Some white_image
  /\ all_lighter (threshold white_args) white_image
  /\ (forall m mode,
         no_foreground m -> findContours (OpenCV := cv_example) m mode = [])
  /\ outline_contours_filtered (cv := cv_example) white_args white_image = []
  /\ main (cv := cv_example) white_args
     = no_foreground_run (cv := cv_example) white_args white_image
  /\ outcome (main (cv := cv_example) white_args)
     = Raise (ValueError "bbox_from_polys: empty polygon/contour list").
Proof.
  split; [reflexivity |].
  split; [exact white_image_all_lighter |].
  split; [exact cv_example_background |].
  exact (no_foreground_run_warns_then_raises cv_example white_args
           eq_refl white_image_all_lighter cv_example_background).
Defined.

(** ** Arguments that the run does not read *)

(** C5. The value of --blur and the value of --min-area do not reach the
    pipeline: [main] thresholds the image as read, without calling
    [binarize], and drops the detail contours of area under 2.0 whatever
    --min-area says; two runs that differ only in these two arguments print
    and write the same and end the same. *)
Theorem blur_and_min_area_are_not_read :
  forall (cv : OpenCV) (args : Args) (blur_k : Z) (area : Q),
    main (with_min_area (with_blur args blur_k) area) = main args
    /\ detail_contours_filtered (with_min_area args area)
       = detail_contours_filtered args
    /\ shape_mask (with_blur args blur_k) = shape_mask args.
Proof. intros cv args blur_k area. repeat split; reflexivity. Qed.

(** ** The simplify factor and the detail layer *)

Lemma filter_detail_spec {cv : OpenCV} (contours : list contour) :
  filter_detail contours
  = map (fun c => simplify_contour c (2 # 1000)) (filter detail_kept contours).
Proof.
  induction contours as [| c cs IH]; [reflexivity |].
  cbn [filter_detail filter]. unfold detail_kept at 1.
  destruct (Qltb (contourArea c) (2 # 1)); cbn [negb map]; now rewrite IH.
Qed.

(** The run on the ring drawing goes through and writes the extent of the
    outline, 4 by 4. *)
Example ring_run_completes :
  outcome (main (cv := cv_example) ring_args) = Ok tt
  /\ In (WriteFile "ring_meta.scad"
           (TextFile ["ART_W_U = 4.000000;"; "ART_H_U = 4.000000;"]))
        (events (main (cv := cv_example) ring_args)).
Proof. split; [reflexivity | vm_compute; tauto]. Qed.

(** C10, as stated, fails: on the ring drawing, --simplify 0.01 keeps the
    square outline, whose fill holds the white centre, and the detail layer
    has the border of the centre; --simplify 1 reduces the outline to the
    point (1,1), the silhouette to that pixel, and the detail layer is
    empty. *)
Lemma simplify_changes_detail_layer :
  detail_contours_filtered (cv := cv_example) ring_args ring_image
  = [centre_border]
  /\ detail_contours_filtered (cv := cv_example)
       (with_simplify ring_args 1) ring_image
     = []
  /\ detail_contours_filtered (cv := cv_example) ring_args ring_image
     <> detail_contours_filtered (cv := cv_example)
          (with_simplify ring_args 1) ring_image.
Proof.
  assert (H1 : detail_contours_filtered (cv := cv_example) ring_args ring_image
               = [centre_border]) by (vm_compute; reflexivity).
  assert (H2 : detail_contours_filtered (cv := cv_example)
                 (with_simplify ring_args 1) ring_image = [])
    by (vm_compute; reflexivity).
  repeat split; try assumption.
  rewrite H1, H2. discriminate.
Qed.

(** C10, amended. Detail contours are always simplified with the fixed factor
    0.002, whatever --simplify says, and the --simplify factor is applied to
    the single outline polygon only; the detail layer is traced inside the
    silhouette filled from that simplified outline, so two runs that differ
    only in --simplify and fill the same silhouette mask have identical detail
    layers. *)
Theorem detail_layer_depends_on_simplify_through_silhouette :
  forall (cv : OpenCV) (args : Args) (img_gray : image) (s : Q),
    silhouette_mask (with_simplify args s) img_gray
    = silhouette_mask args img_gray ->
    detail_contours_filtered (with_simplify args s) img_gray
    = detail_contours_filtered args img_gray
    /\ detail_contours_filtered args img_gray
       = map (fun c => simplify_contour c (2 # 1000))
             (filter detail_kept (detail_contours args img_gray))
    /\ outline_contours (with_simplify args s) img_gray
       = outline_contours args img_gray
    /\ outline_contours_filtered (with_simplify args s) img_gray
       = match outline_contours args img_gray with
         | c :: rest => [simplify_contour (py_max_by contourArea c rest) s]
         | [] => []
         end.
Proof.
  intros cv args img_gray s Hmask. repeat split.
  - unfold detail_contours_filtered, detail_contours, white_inside_eroded,
      white_inside.
    rewrite Hmask. reflexivity.
  - apply filter_detail_spec.
  - unfold outline_contours_filtered, select_outline.
    change (outline_contours (with_simplify args s) img_gray)
      with (outline_contours args img_gray).
    destruct (outline_contours args img_gray); reflexivity.
Qed.

Lemma detail_layer_depends_on_simplify_through_silhouette_witness :
  silhouette_mask (cv := cv_example) (with_simplify ring_args (2 # 100))
                  ring_image
  = silhouette_mask (cv := cv_example) ring_args ring_image
  /\ detail_contours_filtered (cv := cv_example)
       (with_simplify ring_args (2 # 100)) ring_image
     = detail_contours_filtered (cv := cv_example) ring_args ring_image.
Proof.
  assert (H : silhouette_mask (cv := cv_example)
                (with_simplify ring_args (2 # 100)) ring_image
              = silhouette_mask (cv := cv_example) ring_args ring_image)
    by (vm_compute; reflexivity).
  split; [exact H |].
  exact (proj1 (detail_layer_depends_on_simplify_through_silhouette
                  cv_example ring_args ring_image (2 # 100) H)).
Defined.

(** * Further properties of the code *)

(** ** How a run ends *)

(** An input that cannot be read: the run prints the error to the diagnostic
    stream, writes no file and exits with status 1. *)
Theorem main_unreadable_input :
  forall (cv : OpenCV) (args : Args),
    imread (input args) = None ->
    main args
    = ([Stderr ("ERROR: Unable to read image '" ++ input args ++ "'")],
       Raise (SystemExit 1)).
Proof.
  intros cv args Hread. unfold main, load_grayscale. rewrite Hread.
  reflexivity.
Qed.

Lemma main_unreadable_input_witness :
  imread (OpenCV := cv_example) (input (default_args "missing.png" "out.svg"))
  = None
  /\ main (cv := cv_example) (default_args "missing.png" "out.svg")
     = ([Stderr "ERROR: Unable to read image 'missing.png'"],
        Raise (SystemExit 1)).
Proof.
  split; [reflexivity |].
  exact (main_unreadable_input cv_example
           (default_args "missing.png" "out.svg") eq_refl).
Defined.

(** The outcome of a run whose writes succeed is that of [bbox_from_polys] on
    the filtered outline. *)
Lemma main_ends_as_bbox_from_polys_aux {cv : OpenCV} (args : Args) :
  outcome (main args)
  = match imread (input args) with
    | None => Raise (SystemExit 1)
    | Some img_gray =>
        result_map (fun _ => tt)
                   (outline_bbox (outline_contours_filtered args img_gray))
    end.
Proof.
  unfold main, load_grayscale.
  destruct (imread (input args)) as [img_gray |]; [| reflexivity].
  cbn [bind ret].
  destruct (is_empty (outline_contours args img_gray));
    destruct (is_empty (detail_contours_filtered args img_gray));
    destruct (debug args);
    destruct (outline_bbox (outline_contours_filtered args img_gray))
      as [[[[x0 y0] x1] y1] | e];
    reflexivity.
Qed.

Lemma outline_bbox_of_contour (p : point) (rest : list point) :
  outline_bbox [p :: rest]
  = Ok (Fin (fold_left Z.min (map fst rest) (fst p)),
        Fin (fold_left Z.min (map snd rest) (snd p)),
        Fin (fold_left Z.max (map fst rest) (fst p)),
        Fin (fold_left Z.max (map snd rest) (snd p))).
Proof.
  unfold outline_bbox. cbn [map].
  rewrite bbox_from_polys_outcome_aux.
  cbn [first_error element_error]. unfold all_float_points.
  cbn [map concat float_points poly_points app]. rewrite app_nil_r.
  destruct p as [x y]. reflexivity.
Qed.

Lemma fold_min_le (zs : list Z) (z : Z) : fold_left Z.min zs z <= z.
Proof.
  revert z; induction zs as [| y zs IH]; intros z; simpl; [lia |].
  specialize (IH (Z.min z y)). lia.
Qed.

Lemma fold_max_ge (zs : list Z) (z : Z) : z <= fold_left Z.max zs z.
Proof.
  revert z; induction zs as [| y zs IH]; intros z; simpl; [lia |].
  specialize (IH (Z.max z y)). lia.
Qed.

(** When the simplified outline has a point, the run goes through and
    writes, as ART_W_U and ART_H_U of the metadata file, the differences of
    the greatest and least x and of the greatest and least y of that outline;
    both are at least 0. *)
Theorem main_writes_outline_extent :
  forall (cv : OpenCV) (args : Args) (img_gray : image)
         (p : point) (rest : list point),
    imread (input args) = Some img_gray ->
    outline_contours_filtered args img_gray = [p :: rest] ->
    let w_u := fold_left Z.max (map fst rest) (fst p)
               - fold_left Z.min (map fst rest) (fst p) in
    let h_u := fold_left Z.max (map snd rest) (snd p)
               - fold_left Z.min (map snd rest) (snd p) in
    outcome (main args) = Ok tt
    /\ In (WriteFile (splitext_base (output args) ++ "_meta.scad")
             (TextFile ["ART_W_U = " ++ fmt_6f (Fin w_u) ++ ";";
                        "ART_H_U = " ++ fmt_6f (Fin h_u) ++ ";"]))
          (events (main args))
    /\ 0 <= w_u /\ 0 <= h_u.
Proof.
  intros cv args img_gray p rest Hread Hout w_u h_u.
  split; [| split].
  - rewrite main_ends_as_bbox_from_polys_aux, Hread, Hout,
      outline_bbox_of_contour.
    reflexivity.
  - unfold main, load_grayscale. rewrite Hread. cbn [bind ret].
    rewrite Hout, outline_bbox_of_contour.
    destruct (is_empty (outline_contours args img_gray));
      destruct (is_empty (detail_contours_filtered args img_gray));
      destruct (debug args);
      cbv [bind emit ret lift create_svg write_svg_single_group
           write_svg_detail_evenodd write_meta_scad write_debug events fst
           app float_sub];
      repeat (first [left; reflexivity | right]).
  - subst w_u h_u.
    pose proof (fold_min_le (map fst rest) (fst p)).
    pose proof (fold_max_ge (map fst rest) (fst p)).
    pose proof (fold_min_le (map snd rest) (snd p)).
    pose proof (fold_max_ge (map snd rest) (snd p)).
    lia.
Qed.

Lemma main_writes_outline_extent_witness :
  imread (OpenCV := cv_example) (input ring_args) = Some ring_image
  /\ outline_contours_filtered (cv := cv_example) ring_args ring_image
     = [(1, 1) :: [(1, 5); (5, 5); (5, 1)]]
  /\ outcome (main (cv := cv_example) ring_args) = Ok tt.
Proof.
  split; [reflexivity | split; [reflexivity |]].
  exact (proj1 (main_writes_outline_extent cv_example ring_args
                  (p := (1, 1)) (rest := [(1, 5); (5, 5); (5, 1)])
                  eq_refl eq_refl)).
Defined.

(** The --debug flag only adds the debug images: with it the run writes them
    after the warnings and before the documents, and everything else it
    prints and writes, and the way it ends, are as without the flag. *)
Theorem debug_only_adds_debug_images :
  forall (cv : OpenCV) (args : Args) (img_gray : image),
    imread (input args) = Some img_gray ->
    exists post,
      events (main (with_debug args false))
      = (warnings args img_gray ++ post)%list
      /\ events (main (with_debug args true))
         = (warnings args img_gray
              ++ events (write_debug args img_gray) ++ post)%list
      /\ outcome (main (with_debug args true))
         = outcome (main (with_debug args false)).
Proof.
  intros cv args img_gray Hread.
  exists (skipn (length (warnings args img_gray))
                (events (main (with_debug args false)))).
  unfold main, load_grayscale, warnings. cbn [input with_debug].
  rewrite Hread. cbn [bind ret].
  change (outline_contours (with_debug args false) img_gray)
    with (outline_contours args img_gray).
  change (outline_contours (with_debug args true) img_gray)
    with (outline_contours args img_gray).
  change (detail_contours_filtered (with_debug args false) img_gray)
    with (detail_contours_filtered args img_gray).
  change (detail_contours_filtered (with_debug args true) img_gray)
    with (detail_contours_filtered args img_gray).
  change (outline_contours_filtered (with_debug args false) img_gray)
    with (outline_contours_filtered args img_gray).
  change (outline_contours_filtered (with_debug args true) img_gray)
    with (outline_contours_filtered args img_gray).
  destruct (is_empty (outline_contours args img_gray));
    destruct (is_empty (detail_contours_filtered args img_gray));
    destruct (outline_bbox (outline_contours_filtered args img_gray))
      as [[[[x0 y0] x1] y1] | e];
    repeat split; reflexivity.
Qed.

Lemma debug_only_adds_debug_images_witness :
  imread (OpenCV := cv_example) (input ring_args) = Some ring_image
  /\ exists post,
      events (main (cv := cv_example) (with_debug ring_args false))
      = (warnings (cv := cv_example) ring_args ring_image ++ post)%list
      /\ events (main (cv := cv_example) (with_debug ring_args true))
         = (warnings (cv := cv_example) ring_args ring_image
              ++ events (write_debug (cv := cv_example) ring_args ring_image)
              ++ post)%list
      /\ outcome (main (cv := cv_example) (with_debug ring_args true))
         = outcome (main (cv := cv_example) (with_debug ring_args false)).
Proof.
  split; [reflexivity |].
  exact (debug_only_adds_debug_images cv_example ring_args eq_refl).
Defined.

Local Close Scope string_scope.

(** ** The masks, pixel by pixel *)

Lemma nth_error_mapi_from {A B} (f : Z -> A -> B) (l : list A) (i : Z)
      (n : nat) :
  nth_error (mapi_from f i l) n
  = option_map (f (i + Z.of_nat n)) (nth_error l n).
Proof.
  revert i n; induction l as [| a l IH]; intros i [| n]; cbn [mapi_from nth_error];
    try reflexivity.
  - cbn. now rewrite Z.add_0_r.
  - rewrite IH. do 2 f_equal. lia.
Qed.

Lemma nth_error_zip_with {A B C} (f : A -> B -> C) (l : list A) (m : list B)
      (n : nat) :
  nth_error (zip_with f l m) n
  = match nth_error l n, nth_error m n with
    | Some a, Some b => Some (f a b)
    | _, _ => None
    end.
Proof.
  revert m n; induction l as [| a l IH]; intros [| b m] [| n];
    cbn [zip_with nth_error]; try reflexivity.
  - now destruct (nth_error l n).
  - apply IH.
Qed.

Lemma nth_error_repeat_lt {A} (a : A) (k n : nat) :
  nth_error (repeat a k) n = if (n <? k)%nat then Some a else None.
Proof.
  revert n; induction k as [| k IH]; intros [| n]; cbn [repeat nth_error];
    try reflexivity.
  rewrite IH. reflexivity.
Qed.

Lemma pixel_at_map (f : Z -> Z) (m : image) (y x : Z) :
  pixel_at (map (map f) m) y x = option_map f (pixel_at m y x).
Proof.
  unfold pixel_at. destruct ((y <? 0) || (x <? 0)); [reflexivity |].
  rewrite nth_error_map. destruct (nth_error m (Z.to_nat y)) as [row |];
    [| reflexivity].
  cbn [option_map]. apply nth_error_map.
Qed.

Lemma pixel_at_mapi (g : Z -> Z -> Z -> Z) (m : image) (y x : Z) :
  pixel_at (mapi (fun y row => mapi (fun x v => g y x v) row) m) y x
  = option_map (g y x) (pixel_at m y x).
Proof.
  unfold pixel_at.
  destruct (Z.ltb_spec y 0), (Z.ltb_spec x 0); cbn [orb]; try reflexivity.
  unfold mapi. rewrite nth_error_mapi_from.
  destruct (nth_error m (Z.to_nat y)) as [row |]; [| reflexivity].
  cbn [option_map]. rewrite nth_error_mapi_from.
  rewrite !Z.add_0_l, !Z2Nat.id by lia. reflexivity.
Qed.

Lemma pixel_at_zip_with (f : Z -> Z -> Z) (a b : image) (y x : Z) :
  pixel_at (zip_with (zip_with f) a b) y x
  = match pixel_at a y x, pixel_at b y x with
    | Some u, Some v => Some (f u v)
    | _, _ => None
    end.
Proof.
  unfold pixel_at. destruct ((y <? 0) || (x <? 0)); [reflexivity |].
  rewrite nth_error_zip_with.
  destruct (nth_error a (Z.to_nat y)) as [ra |],
           (nth_error b (Z.to_nat y)) as [rb |]; try reflexivity.
  - apply nth_error_zip_with.
  - now destruct (nth_error ra (Z.to_nat x)).
Qed.

Lemma pixel_at_zeros (h w : nat) (y x : Z) :
  pixel_at (np.zeros h w) y x
  = if (0 <=? y) && (y <? Z.of_nat h) && (0 <=? x) && (x <? Z.of_nat w)
    then Some 0 else None.
Proof.
  unfold pixel_at, np.zeros.
  destruct (Z.ltb_spec y 0), (Z.ltb_spec x 0), (Z.leb_spec 0 y),
    (Z.leb_spec 0 x); try lia; cbn [orb andb];
    try (now destruct (y <? Z.of_nat h)).
  rewrite nth_error_repeat_lt.
  destruct (Nat.ltb_spec (Z.to_nat y) h), (Z.ltb_spec y (Z.of_nat h));
    try lia; cbn [andb]; [| reflexivity].
  rewrite nth_error_repeat_lt.
  destruct (Nat.ltb_spec (Z.to_nat x) w), (Z.ltb_spec x (Z.of_nat w));
    try lia; reflexivity.
Qed.

Lemma pixel_at_sentinel (m : image) (y x v : Z) :
  binary_mask m -> pixel_at m y x = Some v -> sentinel v.
Proof.
  intros Hm Hv. apply pixel_at_In in Hv as (row & Hrow & Hv).
  exact (Hm row Hrow v Hv).
Qed.

(** A pixel of the silhouette mask is set exactly when it lies in the image
    and in the fill of the one outline polygon that was kept; with no outline
    contour the mask has no set pixel. *)
Theorem silhouette_mask_pixels :
  forall (cv : OpenCV) (args : Args) (img_gray : image) (y x : Z),
    pixel_at (silhouette_mask args img_gray) y x = Some 255
    <-> (0 <= y < Z.of_nat (height img_gray)
         /\ 0 <= x < Z.of_nat (width img_gray)
         /\ exists cnt,
             outline_contours_filtered args img_gray = [cnt]
             /\ filled [cnt] y x = true).
Proof.
  intros cv args img_gray y x.
  unfold silhouette_mask, outline_contours_filtered, select_outline.
  destruct (outline_contours args img_gray) as [| c rest]; cbn [fst snd].
  - rewrite pixel_at_zeros. split.
    + destruct (_ && _); discriminate.
    + intros (_ & _ & cnt & H & _). discriminate.
  - unfold drawContours. rewrite pixel_at_mapi, pixel_at_zeros.
    destruct (Z.leb_spec 0 y), (Z.ltb_spec y (Z.of_nat (height img_gray))),
      (Z.leb_spec 0 x), (Z.ltb_spec x (Z.of_nat (width img_gray)));
      cbn [andb option_map];
      try (split; [discriminate | intros (? & ? & _); lia]).
    destruct (filled _ y x) eqn:Hf; split.
    + intros _. repeat split; try lia. eexists; split; [reflexivity | exact Hf].
    + reflexivity.
    + discriminate.
    + intros (_ & _ & cnt & [= <-] & Hc). congruence.
Qed.

(** A pixel of the detail mask is set exactly when the image is lighter than
    the threshold there and the pixel is set in the silhouette mask: the
    detail is the white inside the silhouette, and the erosion with no
    iteration takes nothing away. *)
Theorem detail_mask_pixels :
  forall (cv : OpenCV) (args : Args) (img_gray : image) (y x : Z),
    pixel_at (white_inside_eroded args img_gray) y x = Some 255
    <-> ((exists v, pixel_at img_gray y x = Some v /\ threshold args < v)
         /\ pixel_at (silhouette_mask args img_gray) y x = Some 255).
Proof.
  intros cv args img_gray y x.
  change (white_inside_eroded args img_gray)
    with (cv2.bitwise_and (white_mask args img_gray)
                          (silhouette_mask args img_gray)).
  unfold cv2.bitwise_and. rewrite pixel_at_zip_with.
  unfold white_mask, cv2.threshold. rewrite pixel_at_map.
  destruct (pixel_at img_gray y x) as [v |]; cbn [option_map].
  - destruct (pixel_at (silhouette_mask args img_gray) y x) as [s |] eqn:Hs.
    + pose proof (pixel_at_sentinel _ _ (silhouette_mask_binary args img_gray) Hs)
        as Hsent.
      unfold cv2.threshold_pixel.
      destruct (Z.gtb_spec v (threshold args)), Hsent as [-> | ->];
        cbn; split; try discriminate; try reflexivity;
        try (intros [(u & [= <-] & Hu) Hq]; first [lia | discriminate]).
      intros _. split; [exists v; split; [reflexivity | lia] | reflexivity].
    + split; [discriminate | intros [_ H]; discriminate].
  - split; [discriminate | intros [(v & H & _) _]; discriminate].
Qed.

(** The white mask is the complement of the thresholded shape mask: the two
    thresholds of [main] split the pixels of the image between them. *)
Theorem white_mask_is_complement :
  forall (args : Args) (img_gray : image),
    cv2.bitwise_not (thresholded_mask args img_gray)
    = white_mask args img_gray.
Proof.
  intros args img_gray.
  unfold cv2.bitwise_not, thresholded_mask, white_mask, cv2.threshold.
  rewrite map_map. apply map_ext; intros row.
  rewrite map_map. apply map_ext; intros v.
  unfold cv2.threshold_pixel. destruct (v >? threshold args); reflexivity.
Qed.

(** ** binarize *)

(** With the inversion on, [binarize] marks as foreground exactly the pixels
    lighter than the threshold; inverting that mask once more gives the mask
    of the run without inversion. *)
Theorem binarize_invert :
  forall (cv : OpenCV) (img_gray : image) (t blur_k : Z),
    binarize img_gray t blur_k true
    = map (map (fun v => if v <=? t then 0 else 255))
          (if negb (blur_k =? 0) && (blur_k >? 0) && (blur_k mod 2 =? 1)
           then GaussianBlur img_gray blur_k else img_gray)
    /\ cv2.bitwise_not (binarize img_gray t blur_k true)
       = binarize img_gray t blur_k false.
Proof.
  intros cv img_gray t blur_k. unfold binarize, cv2.bitwise_not, cv2.threshold.
  split.
  - rewrite map_map. apply map_ext; intros row.
    rewrite map_map. apply map_ext; intros v.
    rewrite threshold_pixel_inv_spec. destruct (v <=? t); reflexivity.
  - rewrite !map_map. apply map_ext; intros row.
    rewrite !map_map. apply map_ext; intros v.
    rewrite threshold_pixel_inv_spec. destruct (v <=? t); reflexivity.
Qed.

(** A kernel size that is zero, negative or even switches the blur off:
    [binarize] thresholds the image as it is. *)
Theorem binarize_blur_off :
  forall (cv : OpenCV) (img_gray : image) (t blur_k : Z) (inv : bool),
    blur_k <= 0 \/ blur_k mod 2 = 0 ->
    binarize img_gray t blur_k inv = binarize img_gray t 0 inv.
Proof.
  intros cv img_gray t blur_k inv H. unfold binarize.
  replace (negb (blur_k =? 0) && (blur_k >? 0) && (blur_k mod 2 =? 1))
    with false; [reflexivity |].
  symmetry. destruct H as [H | H].
  - destruct (Z.gtb_spec blur_k 0); [lia |].
    now rewrite andb_false_r.
  - rewrite H. now rewrite andb_false_r.
Qed.

Lemma binarize_blur_off_witness :
  (4 <= 0 \/ 4 mod 2 = 0)
  /\ binarize (cv := cv_example) ring_image 180 4 false
     = binarize (cv := cv_example) ring_image 180 0 false.
Proof.
  assert (H : 4 <= 0 \/ 4 mod 2 = 0) by (right; reflexivity).
  split; [exact H |].
  exact (binarize_blur_off cv_example ring_image 180 false H).
Defined.

(** ** The shape of the masks *)

Lemma length_mapi_from {A B} (f : Z -> A -> B) (l : list A) (i : Z) :
  length (mapi_from f i l) = length l.
Proof.
  revert i; induction l as [| a l IH]; intros i; simpl; [| rewrite IH];
    reflexivity.
Qed.

Lemma length_zip_with {A B C} (f : A -> B -> C) (l : list A) (m : list B) :
  length (zip_with f l m) = Nat.min (length l) (length m).
Proof.
  revert m; induction l as [| a l IH]; intros [| b m]; simpl;
    [| | | rewrite IH]; reflexivity.
Qed.

Lemma has_shape_map (f : Z -> Z) (m : image) (h w : nat) :
  has_shape m h w -> has_shape (map (map f) m) h w.
Proof.
  intros [Hh Hw]. split; [now rewrite length_map |].
  intros row Hrow. apply in_map_iff in Hrow as (row0 & <- & Hrow0).
  rewrite length_map. now apply Hw.
Qed.

Lemma has_shape_mapi (g : Z -> Z -> Z -> Z) (m : image) (h w : nat) :
  has_shape m h w ->
  has_shape (mapi (fun y row => mapi (fun x v => g y x v) row) m) h w.
Proof.
  intros [Hh Hw]. split; [unfold mapi; now rewrite length_mapi_from |].
  intros row Hrow. apply In_mapi in Hrow as (y & row0 & Hrow0 & ->).
  unfold mapi. rewrite length_mapi_from. now apply Hw.
Qed.

Lemma has_shape_zeros (h w : nat) : has_shape (np.zeros h w) h w.
Proof.
  unfold np.zeros. split; [apply repeat_length |].
  intros row Hrow. apply repeat_spec in Hrow; subst row. apply repeat_length.
Qed.

Lemma has_shape_zip_with (f : Z -> Z -> Z) (a b : image) (h w : nat) :
  has_shape a h w -> has_shape b h w ->
  has_shape (zip_with (zip_with f) a b) h w.
Proof.
  intros [Ha Hwa] [Hb Hwb]. split.
  - rewrite length_zip_with, Ha, Hb. apply Nat.min_id.
  - intros row Hrow. apply In_zip_with in Hrow as (ra & rb & Hra & Hrb & ->).
    rewrite length_zip_with, (Hwa ra Hra), (Hwb rb Hrb). apply Nat.min_id.
Qed.

Lemma has_shape_dilate (kernel m : image) (iterations h w : nat) :
  has_shape m h w -> has_shape (cv2.dilate m kernel iterations) h w.
Proof.
  intros Hm. unfold cv2.dilate.
  destruct (cv2.morph_is_copy kernel iterations); [exact Hm |].
  induction iterations as [| n IH]; simpl; [exact Hm |].
  unfold cv2.dilate_once at 1.
  exact (has_shape_mapi
           (fun y x _ =>
              fold_right Z.max 0
                (cv2.window (Nat.iter n (cv2.dilate_once kernel) m)
                            (cv2.kernel_offsets kernel) y x)) IH).
Qed.

Lemma ring_image_shape :
  has_shape ring_image (height ring_image) (width ring_image).
Proof.
  split; [reflexivity |]. intros row Hrow. cbn in Hrow.
  repeat (destruct Hrow as [<- | Hrow]; [reflexivity |]). contradiction.
Qed.

(** On an image of h rows of w pixels every mask of the pipeline has h rows
    of w pixels: thresholding, dilation, filling and the intersection keep the
    dimensions, so the intersection never pairs pixels of different
    positions. *)
Theorem masks_keep_image_shape :
  forall (cv : OpenCV) (args : Args) (img_gray : image),
    has_shape img_gray (height img_gray) (width img_gray) ->
    has_shape (shape_mask args img_gray) (height img_gray) (width img_gray)
    /\ has_shape (silhouette_mask args img_gray)
                 (height img_gray) (width img_gray)
    /\ has_shape (white_mask args img_gray) (height img_gray) (width img_gray)
    /\ has_shape (white_inside args img_gray) (height img_gray) (width img_gray)
    /\ has_shape (white_inside_eroded args img_gray)
                 (height img_gray) (width img_gray).
Proof.
  intros cv args img_gray Himg.
  assert (Hsil : has_shape (silhouette_mask args img_gray)
                           (height img_gray) (width img_gray)).
  { unfold silhouette_mask, select_outline.
    destruct (outline_contours args img_gray); cbn [snd].
    - apply has_shape_zeros.
    - unfold drawContours.
      exact (has_shape_mapi (fun y x v => if filled _ y x then 255 else v)
                            (has_shape_zeros _ _)). }
  assert (Hwhite : has_shape (white_mask args img_gray)
                             (height img_gray) (width img_gray))
    by now apply has_shape_map.
  assert (Hin : has_shape (white_inside args img_gray)
                          (height img_gray) (width img_gray))
    by now apply has_shape_zip_with.
  assert (Hshape : has_shape (shape_mask args img_gray)
                             (height img_gray) (width img_gray)).
  { unfold shape_mask. destruct (outline_offset args >? 0).
    - apply has_shape_dilate. now apply has_shape_map.
    - now apply has_shape_map. }
  exact (conj Hshape (conj Hsil (conj Hwhite (conj Hin Hin)))).
Qed.

Lemma masks_keep_image_shape_witness :
  has_shape ring_image (height ring_image) (width ring_image)
  /\ has_shape (white_inside_eroded (cv := cv_example) ring_args ring_image)
               (height ring_image) (width ring_image).
Proof.
  split; [exact ring_image_shape |].
  exact (proj2 (proj2 (proj2 (proj2
    (masks_keep_image_shape cv_example ring_args ring_image_shape))))).
Defined.

(** ** The outline offset *)

Lemma In_mapi_from_iff {A B} (f : Z -> A -> B) (l : list A) (i : Z) (b : B) :
  In b (mapi_from f i l)
  <-> exists n a, nth_error l n = Some a /\ b = f (i + Z.of_nat n) a.
Proof.
  split.
  - intros H. apply In_nth_error in H as [n Hn].
    rewrite nth_error_mapi_from in Hn.
    destruct (nth_error l n) as [a |] eqn:Ha; [| discriminate].
    injection Hn as <-. exists n, a. auto.
  - intros (n & a & Ha & ->). apply nth_error_In with (n := n).
    rewrite nth_error_mapi_from, Ha. reflexivity.
Qed.

Lemma nth_error_repeat_Some {A} (a b : A) (k n : nat) :
  nth_error (repeat a k) n = Some b <-> (n < k)%nat /\ b = a.
Proof.
  rewrite nth_error_repeat_lt. destruct (Nat.ltb_spec n k); split.
  - intros [= <-]. auto.
  - intros [_ ->]. reflexivity.
  - discriminate.
  - intros [H' _]. lia.
Qed.

(** The cells of a k x k kernel of ones, as offsets from its centre. *)
Lemma kernel_offsets_ones (k : nat) (dy dx : Z) :
  (0 < k)%nat ->
  In (dy, dx) (cv2.kernel_offsets (np.ones k k))
  <-> (- (Z.of_nat k / 2) <= dy < Z.of_nat k - Z.of_nat k / 2
       /\ - (Z.of_nat k / 2) <= dx < Z.of_nat k - Z.of_nat k / 2).
Proof.
  intros Hk. unfold cv2.kernel_offsets, np.ones, mapi.
  rewrite repeat_length.
  replace (length (hd [] (repeat (repeat 1 k) k))) with k
    by (destruct k; [lia | cbn; now rewrite repeat_length]).
  rewrite in_concat. split.
  - intros (l & Hl & Hin).
    apply In_mapi_from_iff in Hl as (i & row & Hrow & ->).
    apply nth_error_repeat_Some in Hrow as [Hi ->].
    apply in_concat in Hin as (l' & Hl' & Hin).
    apply In_mapi_from_iff in Hl' as (j & kv & Hkv & ->).
    apply nth_error_repeat_Some in Hkv as [Hj ->].
    cbn in Hin. destruct Hin as [[= <- <-] | []]. lia.
  - intros [Hy Hx]. set (c := Z.of_nat k / 2) in *.
    exists (concat (mapi_from
                      (fun j kv => if kv =? 0 then [] else [(dy, j - c)])
                      0 (repeat 1 k))).
    split.
    + apply In_mapi_from_iff. exists (Z.to_nat (dy + c)), (repeat 1 k). split.
      * apply nth_error_repeat_Some. split; [lia | reflexivity].
      * replace (0 + Z.of_nat (Z.to_nat (dy + c)) - c) with dy by lia.
        reflexivity.
    + apply in_concat. exists [(dy, dx)]. split; [| now left].
      apply In_mapi_from_iff. exists (Z.to_nat (dx + c)), 1. split.
      * apply nth_error_repeat_Some. split; [lia | reflexivity].
      * replace (0 + Z.of_nat (Z.to_nat (dx + c)) - c) with dx by lia.
        reflexivity.
Qed.

Lemma window_In_iff (img : image) (offs : list (Z * Z)) (y x v : Z) :
  In v (cv2.window img offs y x)
  <-> exists dy dx,
      In (dy, dx) offs /\ pixel_at img (y + dy) (x + dx) = Some v.
Proof.
  unfold cv2.window. rewrite in_flat_map. split.
  - intros ([dy dx] & Ho & H). cbn [fst snd] in H.
    destruct (pixel_at img (y + dy) (x + dx)) as [p |] eqn:Hp;
      [| contradiction].
    destruct H as [<- | []]. exists dy, dx. auto.
  - intros (dy & dx & Ho & Hp). exists (dy, dx). split; [exact Ho |].
    cbn [fst snd]. rewrite Hp. now left.
Qed.

Lemma fold_max_255 (vs : list Z) :
  (forall v, In v vs -> sentinel v) ->
  fold_right Z.max 0 vs = 255 <-> In 255 vs.
Proof.
  induction vs as [| v vs IH]; intros H; cbn [fold_right In].
  - split; [discriminate | tauto].
  - assert (Hvs : forall u, In u vs -> sentinel u) by (intros u Hu; apply H; now right).
    specialize (IH Hvs).
    pose proof (fold_max_sentinel vs Hvs) as Hs.
    destruct (H v (or_introl eq_refl)) as [-> | ->].
    + rewrite Z.max_r by (destruct Hs as [-> | ->]; lia).
      rewrite IH. split; [auto | intros [[=] | H']; exact H'].
    + rewrite Z.max_l by (destruct Hs as [-> | ->]; lia).
      split; auto.
Qed.

Lemma pixel_at_dilate_once (kernel m : image) (y x : Z) :
  pixel_at (cv2.dilate_once kernel m) y x
  = option_map (fun _ => fold_right Z.max 0
                           (cv2.window m (cv2.kernel_offsets kernel) y x))
               (pixel_at m y x).
Proof.
  unfold cv2.dilate_once.
  exact (pixel_at_mapi
           (fun y x _ => fold_right Z.max 0
                           (cv2.window m (cv2.kernel_offsets kernel) y x))
           m y x).
Qed.

Lemma shape_mask_pixels_aux :
  forall (args : Args) (img_gray : image) (y x : Z),
    0 < outline_offset args ->
    pixel_at (shape_mask args img_gray) y x = Some 255
    <-> ((exists v, pixel_at img_gray y x = Some v)
         /\ exists dy dx v',
             - outline_offset args <= dy <= outline_offset args
             /\ - outline_offset args <= dx <= outline_offset args
             /\ pixel_at img_gray (y + dy) (x + dx) = Some v'
             /\ v' <= threshold args).
Proof.
  intros args img_gray y x Ho.
  set (o := outline_offset args) in *.
  unfold shape_mask. fold o.
  destruct (Z.gtb_spec o 0) as [_ | Hle]; [| lia].
  set (k := Z.to_nat (Z.max 1 (o * 2 + 1))).
  assert (Hk : Z.of_nat k = 2 * o + 1) by (unfold k; lia).
  assert (Hc : Z.of_nat k / 2 = o).
  { rewrite Hk. symmetry. apply (Z.div_unique (2 * o + 1) 2 o 1); lia. }
  assert (Hcopy : cv2.morph_is_copy (np.ones k k) 1 = false).
  { unfold cv2.morph_is_copy, np.ones. rewrite repeat_length.
    replace (length (hd [] (repeat (repeat 1 k) k))) with k
      by (destruct k; [lia | cbn; now rewrite repeat_length]).
    cbn [Nat.eqb orb]. apply Nat.eqb_neq. nia. }
  unfold cv2.dilate. rewrite Hcopy. cbn [Nat.iter nat_rect].
  rewrite pixel_at_dilate_once.
  unfold thresholded_mask, cv2.threshold. rewrite pixel_at_map.
  assert (Hwin :
    fold_right Z.max 0
      (cv2.window
         (map (map (cv2.threshold_pixel (threshold args) 255 THRESH_BINARY_INV))
              img_gray)
         (cv2.kernel_offsets (np.ones k k)) y x) = 255
    <-> exists dy dx v', - o <= dy <= o /\ - o <= dx <= o
                         /\ pixel_at img_gray (y + dy) (x + dx) = Some v'
                         /\ v' <= threshold args).
  { rewrite fold_max_255.
    - rewrite window_In_iff. split.
      + intros (dy & dx & Hin & Hp).
        apply kernel_offsets_ones in Hin; [| lia].
        rewrite pixel_at_map in Hp.
        destruct (pixel_at img_gray (y + dy) (x + dx)) as [v' |] eqn:Hv';
          [| discriminate].
        cbn [option_map] in Hp. rewrite threshold_pixel_inv_spec in Hp.
        exists dy, dx, v'. repeat split; try lia; try assumption.
        destruct (Z.leb_spec v' (threshold args)); [lia | discriminate].
      + intros (dy & dx & v' & Hy & Hx & Hv' & Hle).
        exists dy, dx. split.
        * apply kernel_offsets_ones; lia.
        * rewrite pixel_at_map, Hv'. cbn [option_map].
          rewrite threshold_pixel_inv_spec.
          destruct (Z.leb_spec v' (threshold args)); [reflexivity | lia].
    - intros v Hv. apply window_In in Hv as (row & Hrow & Hv).
      exact (threshold_binary img_gray (threshold args) THRESH_BINARY_INV
                              row Hrow v Hv). }
  destruct (pixel_at img_gray y x) as [v |]; cbn [option_map].
  - split.
    + intros [= H]. split; [eauto |]. now apply Hwin.
    + intros [_ H]. f_equal. now apply Hwin.
  - split; [discriminate | intros [[v Hv] _]; discriminate].
Qed.

(** With an outline offset o > 0, a pixel of the shape mask is set exactly
    when it lies in the image and some image pixel at most o rows and o
    columns away is not lighter than the threshold: the dilation grows the
    dark region by o pixels in every direction and removes nothing. *)
Theorem shape_mask_pixels :
  forall (args : Args) (img_gray : image) (y x : Z),
    0 < outline_offset args ->
    pixel_at (shape_mask args img_gray) y x = Some 255
    <-> ((exists v, pixel_at img_gray y x = Some v)
         /\ exists dy dx v',
             - outline_offset args <= dy <= outline_offset args
             /\ - outline_offset args <= dx <= outline_offset args
             /\ pixel_at img_gray (y + dy) (x + dx) = Some v'
             /\ v' <= threshold args).
Proof. exact shape_mask_pixels_aux. Qed.

Lemma shape_mask_pixels_witness :
  0 < outline_offset (default_args "ring.png" "ring.svg")
  /\ (pixel_at (shape_mask (default_args "ring.png" "ring.svg") ring_image)
               0 0 = Some 255
      <-> ((exists v, pixel_at ring_image 0 0 = Some v)
           /\ exists dy dx v',
               - 5 <= dy <= 5 /\ - 5 <= dx <= 5
               /\ pixel_at ring_image (0 + dy) (0 + dx) = Some v'
               /\ v' <= 180)).
Proof.
  assert (H : 0 < outline_offset (default_args "ring.png" "ring.svg"))
    by reflexivity.
  split; [exact H |].
  exact (shape_mask_pixels (default_args "ring.png" "ring.svg")
                           ring_image 0 0 H).
Defined.

(** ** bbox_from_polys: every input *)

(** What [bbox_from_polys] does on every list of the elements modelled - None,
    int32 arrays, lists and generators of pairs of Python ints, tuples of
    plain numbers: it raises the error of the first element that has one
    (the ValueError of numpy's reduction for an array without rows, the
    OverflowError of the conversion for a list holding an integer without a
    finite nearest double, its TypeError for a generator holding one and for
    a tuple of plain numbers); with no such element it raises its own
    ValueError when there is no point at all, and otherwise returns the least
    and greatest coordinates over the points of all elements, those given as
    Python ints rounded to the nearest doubles. *)
Theorem bbox_from_polys_outcome :
  forall polys : list poly,
    bbox_from_polys polys
    = match first_error polys with
      | Some e => Raise e
      | None => box_around (all_float_points polys)
      end.
Proof. exact bbox_from_polys_outcome_aux. Qed.

(** The four kinds of error, and an input without one. *)
Example bbox_from_polys_errors :
  bbox_from_polys [PairList [(0, 0)]; Points []]
  = Raise (ValueError
             "zero-size array to reduction operation minimum which has no identity")
  /\ bbox_from_polys [PairList [(2 ^ 1024, 0)]]
     = Raise (OverflowError "int too large to convert to float")
  /\ bbox_from_polys [PairIter [(0, 0); (0, 2 ^ 1024)]]
     = Raise (TypeError
                "Unsupported contour/polygon format: <class 'generator'> shape=()")
  /\ bbox_from_polys [FlatTuple [3; 4]]
     = Raise (TypeError
                "Unsupported contour/polygon format: <class 'tuple'> shape=(2,)")
  /\ bbox_from_polys [PyNone; PairList []; FlatTuple []; PairIter []]
     = Raise (ValueError "bbox_from_polys: empty polygon/contour list")
  /\ bbox_from_polys [PairIter [(2 ^ 53 + 1, 7)]; Contour [(0, 9)]]
     = Ok (Fin 0, Fin 7, Fin (2 ^ 53), Fin 9).
Proof. repeat split; vm_compute; reflexivity. Qed.

Lemma fold_min_spec (zs : list Z) (z : Z) :
  (forall u, In u (z :: zs) -> fold_left Z.min zs z <= u)
  /\ In (fold_left Z.min zs z) (z :: zs).
Proof.
  revert z; induction zs as [| y zs IH]; intros z; cbn [fold_left].
  - split; [intros u [<- | []]; lia | now left].
  - destruct (IH (Z.min z y)) as [Hle Hin]. split.
    + intros u [<- | [<- | Hu]].
      * specialize (Hle _ (or_introl eq_refl)). lia.
      * specialize (Hle _ (or_introl eq_refl)). lia.
      * apply Hle. now right.
    + destruct Hin as [Hin | Hin]; [| right; now right].
      rewrite <- Hin. destruct (Z.min_spec z y) as [[_ ->] | [_ ->]];
        [now left | right; now left].
Qed.

Lemma fold_max_spec (zs : list Z) (z : Z) :
  (forall u, In u (z :: zs) -> u <= fold_left Z.max zs z)
  /\ In (fold_left Z.max zs z) (z :: zs).
Proof.
  revert z; induction zs as [| y zs IH]; intros z; cbn [fold_left].
  - split; [intros u [<- | []]; lia | now left].
  - destruct (IH (Z.max z y)) as [Hle Hin]. split.
    + intros u [<- | [<- | Hu]].
      * specialize (Hle _ (or_introl eq_refl)). lia.
      * specialize (Hle _ (or_introl eq_refl)). lia.
      * apply Hle. now right.
    + destruct Hin as [Hin | Hin]; [| right; now right].
      rewrite <- Hin. destruct (Z.max_spec z y) as [[_ ->] | [_ ->]];
        [right; now left | now left].
Qed.




Lemma first_error_permutation (polys polys' : list poly) :
  Permutation polys polys' ->
  first_error polys = None -> first_error polys' = None.
Proof.
  induction 1 as [| p l l' _ IH | p q l | l l' l'' _ IH1 _ IH2];
    cbn [first_error].
  - auto.
  - destruct (element_error p); [discriminate | exact IH].
  - destruct (element_error p), (element_error q); try discriminate; auto.
  - auto.
Qed.

Lemma all_float_points_permutation (polys polys' : list poly) :
  Permutation polys polys' ->
  Permutation (all_float_points polys) (all_float_points polys').
Proof.
  intros H. unfold all_float_points. rewrite <- !flat_map_concat_map.
  now apply Permutation_flat_map.
Qed.

Lemma fold_min_permutation (a b : Z) (l l' : list Z) :
  Permutation (a :: l) (b :: l') -> fold_left Z.min l a = fold_left Z.min l' b.
Proof.
  intros H.
  destruct (fold_min_spec l a) as [Hle Hin].
  destruct (fold_min_spec l' b) as [Hle' Hin'].
  pose proof (Hle' _ (Permutation_in _ H Hin)).
  pose proof (Hle _ (Permutation_in _ (Permutation_sym H) Hin')).
  lia.
Qed.

Lemma fold_max_permutation (a b : Z) (l l' : list Z) :
  Permutation (a :: l) (b :: l') -> fold_left Z.max l a = fold_left Z.max l' b.
Proof.
  intros H.
  destruct (fold_max_spec l a) as [Hle Hin].
  destruct (fold_max_spec l' b) as [Hle' Hin'].
  pose proof (Hle' _ (Permutation_in _ H Hin)).
  pose proof (Hle _ (Permutation_in _ (Permutation_sym H) Hin')).
  lia.
Qed.

Lemma box_around_permutation (pts pts' : list point) :
  Permutation pts pts' -> box_around pts = box_around pts'.
Proof.
  intros Hp.
  destruct pts as [| [x y] rest], pts' as [| [x' y'] rest'].
  - reflexivity.
  - now apply Permutation_nil_cons in Hp.
  - apply Permutation_sym in Hp. now apply Permutation_nil_cons in Hp.
  - pose proof (Permutation_map fst Hp) as Hx.
    pose proof (Permutation_map snd Hp) as Hy.
    cbn [map fst snd] in Hx, Hy. cbn [box_around].
    now rewrite (fold_min_permutation Hx), (fold_min_permutation Hy),
      (fold_max_permutation Hx), (fold_max_permutation Hy).
Qed.

(** The order of the polygons does not matter to the box: where
    [bbox_from_polys] returns a box, it returns the same box on the polygons
    in any other order; where it raises, it raises in any other order too. *)
Theorem bbox_from_polys_order_independent :
  forall polys polys' : list poly,
    Permutation polys polys' ->
    match bbox_from_polys polys with
    | Ok b => bbox_from_polys polys' = Ok b
    | Raise _ => exists e', bbox_from_polys polys' = Raise e'
    end.
Proof.
  intros polys polys' H. rewrite !bbox_from_polys_outcome_aux.
  pose proof (box_around_permutation (all_float_points_permutation H)) as Hbox.
  destruct (first_error polys) as [e |] eqn:He.
  - destruct (first_error polys') as [e' |] eqn:He'; [now exists e' |].
    apply (first_error_permutation (Permutation_sym H)) in He'. congruence.
  - rewrite (first_error_permutation H He), <- Hbox.
    destruct (box_around (all_float_points polys)) as [b | e];
      [reflexivity | now exists e].
Qed.

Lemma bbox_from_polys_order_independent_witness :
  Permutation [Contour [(1, 2); (5, 0)]; PairList [(3, 4)]]
              [PairList [(3, 4)]; Contour [(1, 2); (5, 0)]]
  /\ match bbox_from_polys [Contour [(1, 2); (5, 0)]; PairList [(3, 4)]] with
     | Ok b =>
         bbox_from_polys [PairList [(3, 4)]; Contour [(1, 2); (5, 0)]] = Ok b
     | Raise _ =>
         exists e',
           bbox_from_polys [PairList [(3, 4)]; Contour [(1, 2); (5, 0)]]
           = Raise e'
     end.
Proof.
  assert (H : Permutation [Contour [(1, 2); (5, 0)]; PairList [(3, 4)]]
                          [PairList [(3, 4)]; Contour [(1, 2); (5, 0)]])
    by apply perm_swap.
  split; [exact H |].
  exact (bbox_from_polys_order_independent H).
Defined.

(** Which exception is raised does depend on the order: with an array
    without rows and a tuple of plain numbers, the one that comes first
    decides. *)
Example bbox_from_polys_exception_follows_order :
  bbox_from_polys [Points []; FlatTuple [3; 4]]
  = Raise (ValueError
             "zero-size array to reduction operation minimum which has no identity")
  /\ bbox_from_polys [FlatTuple [3; 4]; Points []]
     = Raise (TypeError
                "Unsupported contour/polygon format: <class 'tuple'> shape=(2,)").
Proof. split; vm_compute; reflexivity. Qed.

(** ** Path strings *)

Local Open Scope string_scope.

Lemma string_app_assoc (a b c : string) : (a ++ b) ++ c = a ++ (b ++ c).
Proof. induction a as [| x a IH]; simpl; [| rewrite IH]; reflexivity. Qed.

Lemma string_app_nil_r (a : string) : a ++ "" = a.
Proof. induction a as [| x a IH]; simpl; [| rewrite IH]; reflexivity. Qed.

Lemma string_app_inv_head (a b c : string) : a ++ b = a ++ c -> b = c.
Proof.
  induction a as [| x a IH]; simpl; [auto |]. intros [= H]. auto.
Qed.

(** Two strings that agree up to and after the first occurrence of a
    character agree before it and after it. *)
Lemma split_at_char (c : ascii) (a b s t : string) :
  string_existsb (Ascii.eqb c) a = false ->
  string_existsb (Ascii.eqb c) b = false ->
  a ++ String c s = b ++ String c t ->
  a = b /\ s = t.
Proof.
  revert b; induction a as [| x a IH]; intros [| y b] Ha Hb H; simpl in *.
  - injection H as <-. auto.
  - injection H as <- _. rewrite Ascii.eqb_refl in Hb. discriminate.
  - injection H as -> _. rewrite Ascii.eqb_refl in Ha. discriminate.
  - injection H as <- H.
    apply orb_false_iff in Ha as [_ Ha]. apply orb_false_iff in Hb as [_ Hb].
    destruct (IH b Ha Hb H) as [-> ->]. auto.
Qed.

Lemma uint_no_dot (d : Decimal.uint) :
  string_existsb (Ascii.eqb ".") (NilEmpty.string_of_uint d) = false.
Proof. induction d; simpl; auto. Qed.

Lemma dec_no_dot (z : Z) : string_existsb (Ascii.eqb ".") (dec z) = false.
Proof.
  unfold dec, NilZero.string_of_int, NilZero.string_of_uint.
  destruct (Z.to_int z) as [d | d]; destruct d; simpl; auto using uint_no_dot.
Qed.

Lemma to_int_not_nil (z : Z) :
  Z.to_int z <> Decimal.Pos Decimal.Nil /\ Z.to_int z <> Decimal.Neg Decimal.Nil.
Proof.
  destruct z as [| p | p]; cbn; split; try discriminate;
    intros [= H]; exact (DecimalPos.Unsigned.to_uint_nonnil p H).
Qed.

(** The decimal numeral of an integer determines it. *)
Lemma dec_inj (x y : Z) : dec x = dec y -> x = y.
Proof.
  unfold dec. intros H. apply DecimalZ.to_int_inj.
  destruct (to_int_not_nil x) as [Hx1 Hx2], (to_int_not_nil y) as [Hy1 Hy2].
  pose proof (NilZero.isi (Z.to_int x) Hx1 Hx2) as Ex.
  pose proof (NilZero.isi (Z.to_int y) Hy1 Hy2) as Ey.
  rewrite H in Ex. congruence.
Qed.

(** The text of a point, "x.00,y.00", followed by a space and more text. *)
Lemma point_text_inj (x1 y1 x2 y2 : Z) (s1 s2 : string) :
  (fmt_2f x1 ++ "," ++ fmt_2f y1) ++ " " ++ s1
  = (fmt_2f x2 ++ "," ++ fmt_2f y2) ++ " " ++ s2 ->
  x1 = x2 /\ y1 = y2 /\ s1 = s2.
Proof.
  unfold fmt_2f. rewrite !string_app_assoc. simpl. intros H.
  apply split_at_char in H as [Hx H]; try apply dec_no_dot.
  injection H as H.
  apply split_at_char in H as [Hy H]; try apply dec_no_dot.
  injection H as H.
  apply dec_inj in Hx, Hy. auto.
Qed.

(** The path string after its first command: one "L" command per further
    point, then "Z". *)
Lemma concat_cons (sep x : string) (l : list string) :
  l <> [] -> String.concat sep (x :: l) = x ++ sep ++ String.concat sep l.
Proof. destruct l; [congruence | reflexivity]. Qed.

Lemma path_lines_cons (p : point) (rest : list point) :
  String.concat " " (app (map path_line (p :: rest)) ["Z"])
  = "L " ++ (fmt_2f (fst p) ++ "," ++ fmt_2f (snd p)) ++ " "
      ++ String.concat " " (app (map path_line rest) ["Z"]).
Proof.
  assert (Hne : app (map path_line rest) ["Z"] <> [])
    by (destruct rest; discriminate).
  cbn [map app]. rewrite (concat_cons _ _ Hne).
  unfold path_line at 1. simpl. now rewrite string_app_assoc.
Qed.

Lemma path_lines_inj (r1 r2 : list point) :
  String.concat " " (app (map path_line r1) ["Z"])
  = String.concat " " (app (map path_line r2) ["Z"]) ->
  r1 = r2.
Proof.
  revert r2; induction r1 as [| [x1 y1] r1 IH]; intros [| [x2 y2] r2] H.
  - reflexivity.
  - rewrite path_lines_cons in H. discriminate.
  - rewrite path_lines_cons in H. discriminate.
  - rewrite !path_lines_cons in H. cbn [fst snd] in H.
    simpl in H. injection H as H.
    apply point_text_inj in H as (-> & -> & H). f_equal. auto.
Qed.

Lemma contour_to_path_d_cons (x y : Z) (rest : list point) :
  contour_to_path_d ((x, y) :: rest)
  = "M " ++ (fmt_2f x ++ "," ++ fmt_2f y) ++ " "
      ++ String.concat " " (app (map path_line rest) ["Z"]).
Proof.
  unfold contour_to_path_d. cbv zeta.
  change (fun pt : Z * Z => "L " ++ fmt_2f (fst pt) ++ "," ++ fmt_2f (snd pt))
    with path_line.
  assert (Hne : app (map path_line rest) ["Z"] <> [])
    by (destruct rest; discriminate).
  rewrite (concat_cons _ _ Hne).
  simpl. now rewrite string_app_assoc.
Qed.

(** The path string of a contour determines the contour: every point is
    written out in full, in order, so two contours with the same path string
    are the same sequence of points. *)
Theorem contour_to_path_d_injective :
  forall c1 c2 : contour,
    contour_to_path_d c1 = contour_to_path_d c2 -> c1 = c2.
Proof.
  intros [| [x1 y1] r1] [| [x2 y2] r2] H.
  - reflexivity.
  - rewrite contour_to_path_d_cons in H. discriminate.
  - rewrite contour_to_path_d_cons in H. discriminate.
  - rewrite !contour_to_path_d_cons in H. simpl in H. injection H as H.
    apply point_text_inj in H as (-> & -> & H).
    f_equal. now apply path_lines_inj.
Qed.

Lemma contour_to_path_d_injective_witness :
  contour_to_path_d ring_border = contour_to_path_d [(1, 1); (1, 5); (5, 5); (5, 1)]
  /\ ring_border = [(1, 1); (1, 5); (5, 5); (5, 1)].
Proof.
  split; [reflexivity |].
  exact (contour_to_path_d_injective ring_border
           [(1, 1); (1, 5); (5, 5); (5, 1)] eq_refl).
Defined.

Lemma concat_app (sep : string) (l1 l2 : list string) :
  String.concat sep (l1 ++ l2)%list
  = match l1, l2 with
    | [], _ => String.concat sep l2
    | _, [] => String.concat sep l1
    | _, _ => String.concat sep l1 ++ sep ++ String.concat sep l2
    end.
Proof.
  induction l1 as [| x l1 IH]; [reflexivity |].
  destruct l2 as [| y l2]; [now rewrite app_nil_r |].
  destruct l1 as [| x' l1].
  - reflexivity.
  - change (String.concat sep ((x :: x' :: l1) ++ y :: l2)%list)
      with (x ++ sep ++ String.concat sep ((x' :: l1) ++ y :: l2)%list).
    rewrite IH.
    change (String.concat sep (x :: x' :: l1))
      with (x ++ sep ++ String.concat sep (x' :: l1)).
    now rewrite !string_app_assoc.
Qed.

(** The compound path of two contour sequences, one after the other, is the
    compound path of the first, a space, and the compound path of the second;
    when one of the two has no subpath it is the other alone, with no space
    added. *)
Theorem compound_path_of_concatenation :
  forall cs1 cs2 : list contour,
    contours_to_compound_path_d (cs1 ++ cs2)
    = if String.eqb (contours_to_compound_path_d cs1) ""
      then contours_to_compound_path_d cs2
      else if String.eqb (contours_to_compound_path_d cs2) ""
           then contours_to_compound_path_d cs1
           else contours_to_compound_path_d cs1 ++ " "
                  ++ contours_to_compound_path_d cs2.
Proof.
  intros cs1 cs2. unfold contours_to_compound_path_d.
  rewrite !compound_parts_spec. cbn [app].
  rewrite !subpaths_concat_eqb, filter_app, map_app, concat_app.
  destruct (filter nonempty_contour cs1) as [| c1 f1],
           (filter nonempty_contour cs2) as [| c2 f2]; reflexivity.
Qed.

Lemma contour_paths_spec (mk : string -> path) (contours : list contour) :
  contour_paths mk contours
  = map (fun c => mk (contour_to_path_d c))
        (filter nonempty_contour contours).
Proof.
  induction contours as [| c cs IH]; [reflexivity |].
  cbn [contour_paths filter]. rewrite contour_to_path_d_eqb.
  destruct (nonempty_contour c); cbn [negb map]; now rewrite IH.
Qed.

(** The combined document has the two layers "outline" and "detail", in this
    order, and the standalone outline document has its paths at top level;
    each holds one path per contour that has a point, in input order, and
    none for a contour without points.  The layers' paths are stroked black
    and not filled, the outline document's paths filled black and not
    stroked. *)
Theorem layered_and_outline_documents :
  forall (w h : Z) (outline detail : list contour) (output_path : string),
    create_svg w h outline detail output_path
    = ([WriteFile output_path
          (SvgFile
             (new_drawing w h
                [("xmlns:inkscape",
                  "http://www.inkscape.org/namespaces/inkscape")]
                [EGroup
                   (mkGroup "outline"
                      [("inkscape:groupmode", "layer");
                       ("inkscape:label", "outline")]
                      (map (fun c => mkPath (contour_to_path_d c)
                                            "none" "black" (Some 1) None)
                           (filter nonempty_contour outline)));
                 EGroup
                   (mkGroup "detail"
                      [("inkscape:groupmode", "layer");
                       ("inkscape:label", "detail")]
                      (map (fun c => mkPath (contour_to_path_d c)
                                            "none" "black" (Some 1) None)
                           (filter nonempty_contour detail)))]));
        Stdout ("Saved layered SVG to: " ++ output_path)], Ok tt)
    /\ write_svg_single_group w h outline output_path
       = ([WriteFile output_path
             (SvgFile
                (new_drawing w h []
                   (map (fun c => EPath (mkPath (contour_to_path_d c)
                                                "black" "none" None None))
                        (filter nonempty_contour outline))))], Ok tt).
Proof.
  intros w h outline detail output_path.
  unfold create_svg, write_svg_single_group, layer.
  rewrite !contour_paths_spec, map_map. split; reflexivity.
Qed.

(** ** The names of the files written *)

Lemma rfind_from_spec (c : ascii) (s : string) (i acc : Z) :
  rfind_from c s i acc = acc
  \/ (i <= rfind_from c s i acc
      /\ get (Z.to_nat (rfind_from c s i acc - i)) s = Some c).
Proof.
  revert i acc; induction s as [| a s IH]; intros i acc; cbn [rfind_from].
  - now left.
  - destruct (IH (i + 1) (if Ascii.eqb a c then i else acc)) as [H | [Hle Hget]].
    + rewrite H. destruct (Ascii.eqb_spec a c) as [-> | _]; [right | now left].
      split; [lia |]. now rewrite Z.sub_diag.
    + right. split; [lia |].
      replace (Z.to_nat (rfind_from c s (i + 1) (if Ascii.eqb a c then i else acc) - i))
        with (S (Z.to_nat (rfind_from c s (i + 1)
                             (if Ascii.eqb a c then i else acc) - (i + 1))))
        by lia.
      exact Hget.
Qed.

Lemma rfind_spec (c : ascii) (s : string) :
  rfind c s = -1 \/ (0 <= rfind c s /\ get (Z.to_nat (rfind c s)) s = Some c).
Proof.
  unfold rfind. destruct (rfind_from_spec c s 0 (-1)) as [H | [Hle Hget]];
    [now left | right].
  split; [exact Hle |]. now rewrite Z.sub_0_r in Hget.
Qed.

Lemma substring_until (s : string) (n : nat) (c : ascii) :
  get n s = Some c -> exists rest, s = substring 0 n s ++ String c rest.
Proof.
  revert n; induction s as [| a s IH]; intros [| n] H; cbn in H;
    try discriminate.
  - injection H as ->. exists s. reflexivity.
  - destruct (IH n H) as [rest Hrest]. exists rest.
    cbn. now rewrite <- Hrest.
Qed.

Lemma splitext_base_cuts_extension_aux (p : string) :
  exists ext,
    p = splitext_base p ++ ext
    /\ (ext = "" \/ exists r, ext = String "." r).
Proof.
  unfold splitext_base.
  destruct (Z.gtb_spec (rfind "." p) (rfind "/" p)) as [Hgt | _];
    [| exists ""; rewrite string_app_nil_r; auto].
  destruct (string_existsb _ _);
    [| exists ""; rewrite string_app_nil_r; auto].
  destruct (rfind_spec "." p) as [Hdot | [_ Hget]].
  - destruct (rfind_spec "/" p) as [Hsep | [Hsep _]]; lia.
  - destruct (substring_until _ _ Hget) as [rest Hrest].
    exists (String "." rest). split; [exact Hrest | right; eauto].
Qed.

(** [splitext_base] cuts an extension off the end of the path: the path is
    the base followed by what was cut, and what was cut is empty or begins
    with a dot. *)
Theorem splitext_base_cuts_extension :
  forall p : string,
    exists ext,
      p = splitext_base p ++ ext
      /\ (ext = "" \/ exists r, ext = String "." r).
Proof. exact splitext_base_cuts_extension_aux. Qed.

Lemma splitext_base_not_suffixed (p : string) (a : ascii) (s : string) :
  a <> "."%char -> p <> splitext_base p ++ String a s.
Proof.
  intros Ha H.
  destruct (splitext_base_cuts_extension_aux p) as (ext & Hp & [-> | [r ->]]);
    rewrite Hp in H at 1; apply string_app_inv_head in H.
  - discriminate.
  - injection H as H _. congruence.
Qed.

(** The four files of a run have four different names: the combined document
    at the output path, and the outline document, the detail document and the
    metadata file at the names derived from it; no one of them overwrites
    another. *)
Theorem output_files_have_distinct_names :
  forall out : string,
    NoDup [out;
           splitext_base out ++ "_outline.svg";
           splitext_base out ++ "_detail.svg";
           splitext_base out ++ "_meta.scad"].
Proof.
  intros out.
  assert (H1 : out <> splitext_base out ++ "_outline.svg")
    by (apply splitext_base_not_suffixed; discriminate).
  assert (H2 : out <> splitext_base out ++ "_detail.svg")
    by (apply splitext_base_not_suffixed; discriminate).
  assert (H3 : out <> splitext_base out ++ "_meta.scad")
    by (apply splitext_base_not_suffixed; discriminate).
  repeat constructor; cbn [In]; intros H;
    repeat (destruct H as [H | H]); try contradiction;
    try (symmetry in H; contradiction);
    apply string_app_inv_head in H; discriminate.
Qed.

Local Close Scope string_scope.

(** ** The threshold *)

(** Raising the threshold never takes foreground away: a pixel set in the
    shape mask at threshold t is set in the shape mask at every threshold
    t' >= t, the other arguments being the same. *)
Theorem shape_mask_grows_with_threshold :
  forall (args : Args) (img_gray : image) (t' y x : Z),
    threshold args <= t' ->
    pixel_at (shape_mask args img_gray) y x = Some 255 ->
    pixel_at (shape_mask (with_threshold args t') img_gray) y x = Some 255.
Proof.
  intros args img_gray t' y x Ht.
  destruct (Z.ltb_spec 0 (outline_offset args)) as [Ho | Ho].
  - rewrite (shape_mask_pixels_aux args img_gray y x Ho).
    rewrite (shape_mask_pixels_aux (with_threshold args t') img_gray y x Ho).
    cbn [threshold outline_offset with_threshold].
    intros [Hin (dy & dx & v' & Hy & Hx & Hv' & Hle)].
    split; [exact Hin |]. exists dy, dx, v'. repeat split; try lia; assumption.
  - unfold shape_mask. cbn [outline_offset with_threshold].
    destruct (Z.gtb_spec (outline_offset args) 0) as [Hgt | _]; [lia |].
    unfold thresholded_mask, cv2.threshold. cbn [threshold with_threshold].
    rewrite !pixel_at_map.
    destruct (pixel_at img_gray y x) as [v |]; cbn [option_map];
      [| discriminate].
    rewrite !threshold_pixel_inv_spec.
    destruct (Z.leb_spec v (threshold args)), (Z.leb_spec v t');
      try reflexivity; try discriminate; lia.
Qed.

Lemma shape_mask_grows_with_threshold_witness :
  threshold ring_args <= 200
  /\ pixel_at (shape_mask ring_args ring_image) 1 1 = Some 255
  /\ pixel_at (shape_mask (with_threshold ring_args 200) ring_image) 1 1
     = Some 255.
Proof.
  assert (Ht : threshold ring_args <= 200) by (cbn; lia).
  assert (Hp : pixel_at (shape_mask ring_args ring_image) 1 1 = Some 255)
    by reflexivity.
  split; [exact Ht | split; [exact Hp |]].
  exact (shape_mask_grows_with_threshold ring_args ring_image 1 1 Ht Hp).
Defined.
